(** * proxychannel: certificate authority and service lifecycle coordinator

    A shallow embedding of [cert/certificate.go] and [proxychannel.go].

    Go values are modelled as follows: [string] and [[]byte] are byte
    sequences ([string] and [list Byte.byte]); [int] indices are [Z];
    [*big.Int] is [Z]; [time.Time] is a count of nanoseconds; a Go interface
    is a type class; the functions of Go's standard library that the package
    calls are either re-implemented (string splitting, hexadecimal text,
    calendar arithmetic, MD5) or, for the cryptographic primitives, the
    address parser, the random source and the clock, taken as the fields of
    a class. *)

From Stdlib Require Import ZArith List Strings.String Strings.Ascii Strings.Byte Lia Bool.
From stdpp Require Import base option gmap strings.

Local Open Scope string_scope.
Local Open Scope Z_scope.

(** ** Byte strings, as the Go standard library indexes them *)

Module GoStrings.

(** [bytealg.IndexByteString]: index of the first [c] in [s], or -1. *)
Fixpoint IndexByteString (s : string) (c : ascii) : Z :=
  match s with
  | EmptyString => -1
  | String a s' =>
      if Ascii.eqb a c then 0
      else let r := IndexByteString s' c in
           if r <? 0 then -1 else 1 + r
  end.

(** [bytealg.LastIndexByteString]: index of the last [c] in [s], or -1. *)
Fixpoint LastIndexByteString (s : string) (c : ascii) : Z :=
  match s with
  | EmptyString => -1
  | String a s' =>
      let r := LastIndexByteString s' c in
      if 0 <=? r then 1 + r
      else if Ascii.eqb a c then 0 else -1
  end.

(** [len(s)] *)
Definition len (s : string) : Z := Z.of_nat (String.length s).

(** [s[lo:hi]] for in-range bounds (the callers below stay in range). *)
Definition slice (s : string) (lo hi : Z) : string :=
  String.substring (Z.to_nat lo) (Z.to_nat (hi - lo)) s.

(** [s[i]]; [None] stands for the out-of-range run-time panic. *)
Definition byteAt (s : string) (i : Z) : option ascii :=
  if i <? 0 then None else String.get (Z.to_nat i) s.

Definition byteIs (s : string) (i : Z) (c : ascii) : bool :=
  match byteAt s i with
  | Some a => Ascii.eqb a c
  | None => false
  end.

End GoStrings.

(** ** [net.SplitHostPort] *)

Module GoNet.
Import GoStrings.

Inductive AddrError : Type :=
  | missingPort
  | tooManyColons
  | missingCloseBracket
  | unexpectedOpenBracket
  | unexpectedCloseBracket.

(** The bracketed branch of [SplitHostPort]: on success the host and the
    two scan offsets [j], [k]. *)
Definition splitBracketed (hostport : string) (i : Z)
  : (string * Z * Z) + AddrError :=
  let e := IndexByteString hostport "]" in
  if e <? 0 then inr missingCloseBracket
  else if e + 1 =? len hostport then inr missingPort
  else if e + 1 =? i then inl (slice hostport 1 e, 1, e + 1)
  else if byteIs hostport (e + 1) ":" then inr tooManyColons
  else inr missingPort.

Definition splitPlain (hostport : string) (i : Z)
  : (string * Z * Z) + AddrError :=
  let host := slice hostport 0 i in
  if 0 <=? IndexByteString host ":" then inr tooManyColons
  else inl (host, 0, 0).

(** [SplitHostPort(hostport)]: [inl (host, port)] when [err == nil]. *)
Definition SplitHostPort (hostport : string) : (string * string) + AddrError :=
  let i := LastIndexByteString hostport ":" in
  if i <? 0 then inr missingPort
  else
    match (if byteIs hostport 0 "[" then splitBracketed hostport i
           else splitPlain hostport i) with
    | inr e => inr e
    | inl (host, j, k) =>
        if 0 <=? IndexByteString (slice hostport j (len hostport)) "["
        then inr unexpectedOpenBracket
        else if 0 <=? IndexByteString (slice hostport k (len hostport)) "]"
        then inr unexpectedCloseBracket
        else inl (host, slice hostport (i + 1) (len hostport))
    end.

End GoNet.

(** ** [[]byte], [encoding/hex] and [math/big] *)

Module GoBytes.

(** [[]byte(s)] *)
Definition bytes_of_string (s : string) : list byte := list_byte_of_string s.

Definition Z_of_byte (b : byte) : Z := Z.of_N (Byte.to_N b).

Definition byte_of_Z (z : Z) : byte :=
  match Byte.of_N (Z.to_N (z mod 256)) with
  | Some b => b
  | None => x00
  end.

(** [hextable] of [encoding/hex]. *)
Definition hexdigit (d : Z) : ascii :=
  if d <? 10 then ascii_of_N (Z.to_N (48 + d))
  else ascii_of_N (Z.to_N (97 + (d - 10))).

(** [hex.EncodeToString]: two lower-case digits per byte, high nibble first. *)
Fixpoint EncodeToString (src : list byte) : string :=
  match src with
  | nil => EmptyString
  | b :: rest =>
      String (hexdigit (Z.shiftr (Z_of_byte b) 4))
        (String (hexdigit (Z.land (Z_of_byte b) 15)) (EncodeToString rest))
  end.

(** The digit value of a character in [big.Int.SetString]: ['0'-'9'],
    ['a'-'z'] and ['A'-'Z'] (bases up to 36). *)
Definition digitVal (c : ascii) : option Z :=
  let n := Z.of_N (N_of_ascii c) in
  if (48 <=? n) && (n <=? 57) then Some (n - 48)
  else if (97 <=? n) && (n <=? 122) then Some (n - 97 + 10)
  else if (65 <=? n) && (n <=? 90) then Some (n - 65 + 10)
  else None.

(** The digits of a number in [base], most significant first, accumulated
    onto [acc]; [None] on a character that is no digit of the base. *)
Fixpoint scanDigits (base : Z) (s : string) (acc : Z) : option Z :=
  match s with
  | EmptyString => Some acc
  | String c s' =>
      match digitVal c with
      | Some d => if d <? base then scanDigits base s' (acc * base + d) else None
      | None => None
      end
  end.

(** [SetString(s, base)] on a [big.Int], for an explicit base (2..36): an optional
    sign, then at least one digit; [None] is the [ok == false] result. *)
Definition SetString (s : string) (base : Z) : option Z :=
  let '(neg, digits) :=
    match s with
    | String "-" r => (true, r)
    | String "+" r => (false, r)
    | _ => (false, s)
    end in
  match digits with
  | EmptyString => None
  | _ => match scanDigits base digits 0 with
         | Some v => Some (if neg then - v else v)
         | None => None
         end
  end.

(** The unsigned big-endian value of a byte string. *)
Definition be_value (bs : list byte) : Z :=
  fold_left (fun acc b => acc * 256 + Z_of_byte b) bs 0.

End GoBytes.

(** ** [crypto/md5] (RFC 1321) *)

Module MD5.
Import GoBytes.

Definition mask32 (x : Z) : Z := x mod 2 ^ 32.

Definition rotl32 (x n : Z) : Z :=
  mask32 (Z.lor (Z.shiftl x n) (Z.shiftr x (32 - n))).

Definition not32 (x : Z) : Z := Z.lxor x (2 ^ 32 - 1).

Definition shifts : list Z :=
  [ 7; 12; 17; 22; 7; 12; 17; 22; 7; 12; 17; 22; 7; 12; 17; 22;
    5; 9; 14; 20; 5; 9; 14; 20; 5; 9; 14; 20; 5; 9; 14; 20;
    4; 11; 16; 23; 4; 11; 16; 23; 4; 11; 16; 23; 4; 11; 16; 23;
    6; 10; 15; 21; 6; 10; 15; 21; 6; 10; 15; 21; 6; 10; 15; 21 ].

Definition sines : list Z :=
  [ 0xd76aa478; 0xe8c7b756; 0x242070db; 0xc1bdceee;
    0xf57c0faf; 0x4787c62a; 0xa8304613; 0xfd469501;
    0x698098d8; 0x8b44f7af; 0xffff5bb1; 0x895cd7be;
    0x6b901122; 0xfd987193; 0xa679438e; 0x49b40821;
    0xf61e2562; 0xc040b340; 0x265e5a51; 0xe9b6c7aa;
    0xd62f105d; 0x02441453; 0xd8a1e681; 0xe7d3fbc8;
    0x21e1cde6; 0xc33707d6; 0xf4d50d87; 0x455a14ed;
    0xa9e3e905; 0xfcefa3f8; 0x676f02d9; 0x8d2a4c8a;
    0xfffa3942; 0x8771f681; 0x6d9d6122; 0xfde5380c;
    0xa4beea44; 0x4bdecfa9; 0xf6bb4b60; 0xbebfbc70;
    0x289b7ec6; 0xeaa127fa; 0xd4ef3085; 0x04881d05;
    0xd9d4d039; 0xe6db99e5; 0x1fa27cf8; 0xc4ac5665;
    0xf4292244; 0x432aff97; 0xab9423a7; 0xfc93a039;
    0x655b59c3; 0x8f0ccc92; 0xffeff47d; 0x85845dd1;
    0x6fa87e4f; 0xfe2ce6e0; 0xa3014314; 0x4e0811a1;
    0xf7537e82; 0xbd3af235; 0x2ad7d2bb; 0xeb86d391 ].

Definition nthZ (l : list Z) (i : Z) : Z := nth (Z.to_nat i) l 0.

(** A little-endian 32-bit word from four bytes, and back. *)
Definition le32 (b0 b1 b2 b3 : Z) : Z :=
  b0 + 256 * b1 + 65536 * b2 + 16777216 * b3.

Definition le32_bytes (w : Z) : list byte :=
  [ byte_of_Z w; byte_of_Z (Z.shiftr w 8);
    byte_of_Z (Z.shiftr w 16); byte_of_Z (Z.shiftr w 24) ].

Fixpoint words (fuel : nat) (bs : list Z) : list Z :=
  match fuel, bs with
  | S f, b0 :: b1 :: b2 :: b3 :: rest => le32 b0 b1 b2 b3 :: words f rest
  | _, _ => nil
  end.

(** The padded message: a [0x80] byte, zeros up to 56 mod 64, and the
    length in bits as a 64-bit little-endian number. *)
Definition padding (n : Z) : list Z :=
  let zeros := (55 - n) mod 64 in
  (128 :: repeat 0 (Z.to_nat zeros)
    ++ map (fun k => Z.shiftr (8 * n) (8 * k) mod 256) [0; 1; 2; 3; 4; 5; 6; 7])%list.

Record digestState : Type := mkState { sa : Z; sb : Z; sc : Z; sd : Z }.

Definition init : digestState :=
  mkState 0x67452301 0xefcdab89 0x98badcfe 0x10325476.

Definition round (M : list Z) (st : digestState) (i : Z) : digestState :=
  let '(mkState a b c d) := st in
  let '(f, g) :=
    if i <? 16 then (Z.lor (Z.land b c) (Z.land (not32 b) d), i)
    else if i <? 32 then (Z.lor (Z.land d b) (Z.land (not32 d) c), (5 * i + 1) mod 16)
    else if i <? 48 then (Z.lxor (Z.lxor b c) d, (3 * i + 5) mod 16)
    else (Z.lxor c (Z.lor b (not32 d)), (7 * i) mod 16) in
  let f' := mask32 (f + a + nthZ sines i + nthZ M g) in
  mkState d (mask32 (b + rotl32 f' (nthZ shifts i))) b c.

Definition block (st : digestState) (M : list Z) : digestState :=
  let r := fold_left (round M) (map Z.of_nat (seq 0 64)) st in
  mkState (mask32 (sa st + sa r)) (mask32 (sb st + sb r))
          (mask32 (sc st + sc r)) (mask32 (sd st + sd r)).

Fixpoint blocks (fuel : nat) (st : digestState) (ws : list Z) : digestState :=
  match fuel with
  | O => st
  | S f => blocks f (block st (firstn 16 ws)) (skipn 16 ws)
  end.

(** [h := md5.New(); h.Write(data); h.Sum(nil)] *)
Definition Sum (data : list byte) : list byte :=
  let n := Z.of_nat (List.length data) in
  let padded := (map Z_of_byte data ++ padding n)%list in
  let ws := words (List.length padded) padded in
  let st := blocks (List.length ws / 16) init ws in
  (le32_bytes (sa st) ++ le32_bytes (sb st) ++ le32_bytes (sc st) ++ le32_bytes (sd st))%list.

End MD5.

(** ** [time]: civil dates and [AddDate]

    A [Time] is a number of nanoseconds since January 1 of year 1, 00:00:00,
    read in one fixed-offset location (the zone is not modelled). *)

Module GoTime.

Definition Time : Type := Z.

Definition nsPerDay : Z := 86400 * 1000000000.

Definition daysPer400Years : Z := 365 * 400 + 97.
Definition daysPer100Years : Z := 365 * 100 + 24.
Definition daysPer4Years : Z := 365 * 4 + 1.

Definition isLeap (year : Z) : bool :=
  (year mod 4 =? 0) && (negb (year mod 100 =? 0) || (year mod 400 =? 0)).

(** [daysBefore[m]]: days in a non-leap year before month [m+1]. *)
Definition daysBefore : list Z :=
  [0; 31; 59; 90; 120; 151; 181; 212; 243; 273; 304; 334; 365].

Definition daysBeforeAt (i : Z) : Z := nth (Z.to_nat i) daysBefore 0.

(** [daysSinceEpoch(year)]: days from the epoch to January 1 of [year]. *)
Definition daysSinceEpoch (year : Z) : Z :=
  let y := year - 1 in
  let n := y / 400 in
  let y := y - 400 * n in
  let d := daysPer400Years * n in
  let n := y / 100 in
  let y := y - 100 * n in
  let d := d + daysPer100Years * n in
  let n := y / 4 in
  let y := y - 4 * n in
  let d := d + daysPer4Years * n in
  d + 365 * y.

(** [norm(hi, lo, base)]: carry [lo] into [hi] so that [0 <= lo < base]. *)
Definition norm (hi lo base : Z) : Z * Z :=
  let '(hi, lo) :=
    if lo <? 0 then
      let n := (- lo - 1) / base + 1 in (hi - n, lo + n * base)
    else (hi, lo) in
  if base <=? lo then
    let n := lo / base in (hi + n, lo - n * base)
  else (hi, lo).

(** The day number of [Date(year, month, day, ...)]: the month is carried
    into the year, the day of the month is added as it is (so February 29
    of a common year is March 1). *)
Definition dateToDays (year month day : Z) : Z :=
  let '(year, m) := norm year (month - 1) 12 in
  let month := m + 1 in
  daysSinceEpoch year + daysBeforeAt (month - 1)
  + (if isLeap year && (3 <=? month) then 1 else 0)
  + (day - 1).

(** [absDate], first half: the year and the day within the year. *)
Definition yearDay (d : Z) : Z * Z :=
  let n := d / daysPer400Years in
  let y := 400 * n in
  let d := d - daysPer400Years * n in
  let n := d / daysPer100Years in
  let n := n - Z.shiftr n 2 in
  let y := y + 100 * n in
  let d := d - daysPer100Years * n in
  let n := d / daysPer4Years in
  let y := y + 4 * n in
  let d := d - daysPer4Years * n in
  let n := d / 365 in
  let n := n - Z.shiftr n 2 in
  let y := y + n in
  let d := d - 365 * n in
  (y + 1, d).

(** [absDate], second half: month and day of the month from the day of the
    year. *)
Definition monthDay (leap : bool) (yday : Z) : Z * Z :=
  if leap && (yday =? 31 + 29 - 1) then (2, 29)
  else
    let day := if leap && (31 + 29 - 1 <? yday) then yday - 1 else yday in
    let month := day / 31 in
    let e := daysBeforeAt (month + 1) in
    let '(month, begin) :=
      if e <=? day then (month + 1, e) else (month, daysBeforeAt month) in
    (month + 1, day - begin + 1).

(** [t.Date()] *)
Definition date (t : Time) : Z * Z * Z :=
  let '(year, yday) := yearDay (t / nsPerDay) in
  let '(month, day) := monthDay (isLeap year) yday in
  (year, month, day).

(** [t.AddDate(years, months, days)]: the civil date shifted field by field
    and normalised, at the same time of day. *)
Definition AddDate (t : Time) (years months days : Z) : Time :=
  let '(year, month, day) := date t in
  dateToDays (year + years) (month + months) (day + days) * nsPerDay
  + t mod nsPerDay.

(** [time.Date(year, month, day, 0, 0, 0, 0, loc)], for tests. *)
Definition midnight (year month day : Z) : Time :=
  dateToDays year month day * nsPerDay.

End GoTime.

(** ** The calendar in closed form

    Not part of Go's [time]: the quantities in which the properties of
    [AddDate] are stated. *)

Module GoCalendar.
Import GoTime.

(** Leap years among the years [1..n]. *)
Definition leapsThrough (n : Z) : Z := n / 4 - n / 100 + n / 400.

(** The day of the year (from 0) of day [day] of month [month]. *)
Definition ydayOf (leap : bool) (month day : Z) : Z :=
  daysBeforeAt (month - 1) + (if leap && (3 <=? month) then 1 else 0) + (day - 1).

(** The length of a month. *)
Definition daysIn (leap : bool) (month : Z) : Z :=
  daysBeforeAt month - daysBeforeAt (month - 1)
  + (if leap && (month =? 2) then 1 else 0).

Definition yearLength (leap : bool) : Z := if leap then 366 else 365.

Definition range (n : nat) : list Z := map Z.of_nat (seq 0 n).

(** The check that [monthDay] yields a month, a day in it, and the day of the
    year back. *)
Definition monthDay_ok (leap : bool) (yday : Z) : bool :=
  let '(m, d) := monthDay leap yday in
  (1 <=? m) && (m <=? 12) && (1 <=? d) && (d <=? daysIn leap m)
  && (ydayOf leap m d =? yday).

(** The check that a valid month and day, packed as [32 * month + day], is
    found again from its day of the year. *)
Definition ydayOf_ok (leap : bool) (md : Z) : bool :=
  let m := md / 32 in
  let d := md mod 32 in
  negb ((1 <=? m) && (m <=? 12) && (1 <=? d) && (d <=? daysIn leap m))
  || ((0 <=? ydayOf leap m d) && (ydayOf leap m d <? yearLength leap)
      && (let '(m', d') := monthDay leap (ydayOf leap m d) in (m' =? m) && (d' =? d))).

(** The number of leap days that count towards a date in [month] of [year]. *)
Definition leapTerm (year month : Z) : Z :=
  if 3 <=? month then leapsThrough year else leapsThrough (year - 1).

End GoCalendar.

(** ** Package [cert] *)

Module Cert.
Import GoStrings GoNet GoBytes GoTime.

(** A Go [error] value, and the [(value, err)] result convention. *)
Inductive error : Type := errorString (msg : string).

Definition Result (A : Type) : Type := (A + error)%type.

(** [pem.Block] *)
Record Block : Type := mkBlock { blockType : string; blockBytes : list byte }.

(** [net.IP] *)
Definition IP : Type := list byte.

Inductive ExtKeyUsage : Type :=
  | ExtKeyUsageAny
  | ExtKeyUsageServerAuth
  | ExtKeyUsageClientAuth.

(** [x509.KeyUsage] bit flags ([1 << iota]). *)
Definition KeyUsageDigitalSignature : Z := 1.
Definition KeyUsageContentCommitment : Z := 2.
Definition KeyUsageKeyEncipherment : Z := 4.
Definition KeyUsageDataEncipherment : Z := 8.

(** [pkix.Name], the one field the package sets. *)
Record pkixName : Type := mkName { CommonName : string }.

(** [x509.Certificate], the fields of a template. *)
Record x509Certificate : Type := mkCertificate {
  SerialNumber : Z;
  Subject : pkixName;
  NotBefore : Time;
  NotAfter : Time;
  BasicConstraintsValid : bool;
  ExtKeyUsages : list ExtKeyUsage;
  KeyUsage : Z;
  IPAddresses : list IP;
  DNSNames : list string
}.

Definition with_IPAddresses (c : x509Certificate) (ips : list IP) : x509Certificate :=
  mkCertificate (SerialNumber c) (Subject c) (NotBefore c) (NotAfter c)
    (BasicConstraintsValid c) (ExtKeyUsages c) (KeyUsage c) ips (DNSNames c).

Definition with_DNSNames (c : x509Certificate) (names : list string) : x509Certificate :=
  mkCertificate (SerialNumber c) (Subject c) (NotBefore c) (NotAfter c)
    (BasicConstraintsValid c) (ExtKeyUsages c) (KeyUsage c) (IPAddresses c) names.

(** What the package takes from Go's standard library and from its
    environment.  The random source and the wall clock are oracles indexed by
    the number of earlier reads: [rsa_GenerateKey n bits] is the outcome of
    [rsa.GenerateKey(crand.Reader, bits)] when [n] reads of [crand.Reader]
    came before, [time_Now n] is the [n]-th reading of [time.Now()]. *)
Class GoLib : Type := {
  PrivateKey : Type;
  PublicKey : Type;
  ParsedCertificate : Type;
  tlsCertificate : Type;
  Public : PrivateKey -> PublicKey;
  rsa_GenerateKey : nat -> Z -> Result PrivateKey;
  x509_CreateCertificate :
    nat -> x509Certificate -> ParsedCertificate -> PublicKey -> PrivateKey ->
    Result (list byte);
  x509_MarshalPKCS1PrivateKey : PrivateKey -> list byte;
  x509_ParseCertificate : list byte -> Result ParsedCertificate;
  x509_ParsePKCS1PrivateKey : list byte -> Result PrivateKey;
  pem_EncodeToMemory : Block -> list byte;
  pem_Decode : list byte -> option Block;
  tls_X509KeyPair : list byte -> list byte -> Result tlsCertificate;
  net_ParseIP : string -> option IP;
  time_Now : nat -> Time
}.

(** Modelled from the spec: the [Cache] interface, which the package declares
    in another file.  "Certificate Cache capability (consumed): [Get(host
    string)] gives certificate-or-absent, [Set(host string, certificate)]";
    [C] is the state of the store behind the interface, which [Get] reads
    and [Set] replaces. *)
Class Cache (C V : Type) : Type := {
  cache_Get : C -> string -> option V;
  cache_Set : C -> string -> V -> C
}.

(** Modelled from the spec: what a store must do, "honors read-your-write
    visibility for a single process". *)
Class CacheReadYourWrite (C V : Type) `{Cache C V} : Prop :=
  get_after_set : forall (c : C) (host : string) (v : V),
    cache_Get (cache_Set c host v) host = Some v.

(** [tls.Config], the one field the package sets. *)
Record tlsConfig (V : Type) : Type := mkConfig { Certificates : list V }.
Arguments mkConfig {V} _.
Arguments Certificates {V} _.

(** How a function call ends: it returns, or the goroutine panics. *)
Inductive Outcome (A : Type) : Type :=
  | Returns (a : A)
  | Panics (msg : string).
Arguments Returns {A} _.
Arguments Panics {A} _.

(** A Go process runs the [init] functions of its packages before [main];
    a panic there ends the process and [main] never starts. *)
Inductive Process (A : Type) : Type :=
  | Aborted (msg : string)
  | Ran (result : A).
Arguments Aborted {A} _.
Arguments Ran {A} _.

Section Package.

Context `{Lib : GoLib}.
Context {C : Type} `{CacheC : Cache C tlsCertificate}.

(** The package variables [rootCA] and [rootKey]. *)
Record Globals : Type := mkGlobals {
  rootCA : ParsedCertificate;
  rootKey : PrivateKey
}.

(** Calls that the properties below speak about, in the order made. *)
Inductive Call : Type :=
  | CallCacheGet (host : string)
  | CallCacheSet (host : string) (cert : tlsCertificate)
  | CallGeneratePem (host : string)
  | CallCreateCertificate (tmpl : x509Certificate) (pub : PublicKey).

(** The state the methods run in: the receiver's [cache] field ([None] is the
    nil interface), how far the random source and the clock have been read,
    and the calls made so far (most recent last). *)
Record State : Type := mkSt {
  cache : option C;
  entropy : nat;
  clock : nat;
  calls : list Call
}.

Definition M (A : Type) : Type := State -> A * State.

Definition ret {A} (a : A) : M A := fun st => (a, st).

Definition bind {A B} (m : M A) (k : A -> M B) : M B :=
  fun st => let '(a, st') := m st in k a st'.

Notation "'do' x <- m ;;; k" := (bind m (fun x => k))
  (at level 10, x name, m at level 100, k at level 200).
Notation "'run' m ;;; k" := (bind m (fun _ => k))
  (at level 10, m at level 100, k at level 200).

Definition record (c : Call) : M unit :=
  fun st => (tt, mkSt (cache st) (entropy st) (clock st) (calls st ++ [c])).

(** One read of [crand.Reader]: the position before the read. *)
Definition readRandom : M nat :=
  fun st => (entropy st, mkSt (cache st) (S (entropy st)) (clock st) (calls st)).

(** [time.Now()] *)
Definition Now : M Time :=
  fun st => (time_Now (clock st), mkSt (cache st) (entropy st) (S (clock st)) (calls st)).

Definition getCache : M (option C) := fun st => (cache st, st).

Definition putCache (c : C) : M unit :=
  fun st => (tt, mkSt (Some c) (entropy st) (clock st) (calls st)).

(** [bi := big.NewInt(0); ...; bi.SetString(hexstr, 16)]: the result of
    [SetString] is dropped; were it to fail, [bi] would be unspecified (0
    here). *)
Definition serialOf (host : string) : Z :=
  let hexstr := EncodeToString (MD5.Sum (bytes_of_string host)) in
  match SetString hexstr 16 with
  | Some v => v
  | None => 0
  end.

(** [func (c *Certificate) template(host string) *x509.Certificate] *)
Definition template (host : string) : M x509Certificate :=
  let bi := serialOf host in
  do t1 <- Now ;;;
  do t2 <- Now ;;;
  let cert := {|
    SerialNumber := bi;
    Subject := {| CommonName := host |};
    NotBefore := AddDate t1 (-1) 0 0;
    NotAfter := AddDate t2 10 0 0;
    BasicConstraintsValid := true;
    ExtKeyUsages := [ExtKeyUsageClientAuth; ExtKeyUsageServerAuth];
    KeyUsage := Z.lor (Z.lor KeyUsageDigitalSignature KeyUsageDataEncipherment)
                      KeyUsageKeyEncipherment;
    IPAddresses := [];
    DNSNames := []
  |} in
  ret (match net_ParseIP host with
       | Some ip => with_IPAddresses cert [ip]
       | None => with_DNSNames cert [host]
       end).

(** [func (c *Certificate) GeneratePem(host string) (cert, key []byte, err error)] *)
Definition GeneratePem (g : Globals) (host : string) : M (Result (list byte * list byte)) :=
  run record (CallGeneratePem host) ;;;
  do n <- readRandom ;;;
  match rsa_GenerateKey n 2048 with
  | inr err => ret (inr err)
  | inl priv =>
      do tmpl <- template host ;;;
      run record (CallCreateCertificate tmpl (Public priv)) ;;;
      do n' <- readRandom ;;;
      match x509_CreateCertificate n' tmpl (rootCA g) (Public priv) (rootKey g) with
      | inr err => ret (inr err)
      | inl derBytes =>
          let serverCert := pem_EncodeToMemory (mkBlock "CERTIFICATE" derBytes) in
          let serverKey :=
            pem_EncodeToMemory
              (mkBlock "RSA PRIVATE KEY" (x509_MarshalPKCS1PrivateKey priv)) in
          ret (inl (serverCert, serverKey))
      end
  end.

(** [if h, _, err := net.SplitHostPort(host); err == nil { host = h }] *)
Definition stripPort (host : string) : string :=
  match SplitHostPort host with
  | inl (h, _) => h
  | inr _ => host
  end.

(** [if c.cache != nil { if cert := c.cache.Get(host); cert != nil ...] *)
Definition lookupCache (host : string) : M (option tlsCertificate) :=
  do c <- getCache ;;;
  match c with
  | Some store => run record (CallCacheGet host) ;;; ret (cache_Get store host)
  | None => ret None
  end.

(** [if c.cache != nil { c.cache.Set(host, &cert) }] *)
Definition storeCache (host : string) (cert : tlsCertificate) : M unit :=
  do c <- getCache ;;;
  match c with
  | Some store =>
      run record (CallCacheSet host cert) ;;; putCache (cache_Set store host cert)
  | None => ret tt
  end.

(** [func (c *Certificate) GenerateTLSConfig(host string)], returning a
    [tls.Config] or an error. *)
Definition GenerateTLSConfig (g : Globals) (host : string)
  : M (Result (tlsConfig tlsCertificate)) :=
  let host := stripPort host in
  do hit <- lookupCache host ;;;
  match hit with
  | Some cert => ret (inl (mkConfig [cert]))
  | None =>
      do r <- GeneratePem g host ;;;
      match r with
      | inr err => ret (inr err)
      | inl (serverCert, serverKey) =>
          match tls_X509KeyPair serverCert serverKey with
          | inr err => ret (inr err)
          | inl cert =>
              let tlsConf := mkConfig [cert] in
              run storeCache host cert ;;;
              ret (inl tlsConf)
          end
      end
  end.

(** The template as a function of the two clock readings. *)
Definition templateAt (host : string) (t1 t2 : Time) : x509Certificate :=
  let cert := {|
    SerialNumber := serialOf host;
    Subject := {| CommonName := host |};
    NotBefore := AddDate t1 (-1) 0 0;
    NotAfter := AddDate t2 10 0 0;
    BasicConstraintsValid := true;
    ExtKeyUsages := [ExtKeyUsageClientAuth; ExtKeyUsageServerAuth];
    KeyUsage := Z.lor (Z.lor KeyUsageDigitalSignature KeyUsageDataEncipherment)
                      KeyUsageKeyEncipherment;
    IPAddresses := [];
    DNSNames := []
  |} in
  match net_ParseIP host with
  | Some ip => with_IPAddresses cert [ip]
  | None => with_DNSNames cert [host]
  end.

(** The PEM text of a private key. *)
Definition keyPem (priv : PrivateKey) : list byte :=
  pem_EncodeToMemory (mkBlock "RSA PRIVATE KEY" (x509_MarshalPKCS1PrivateKey priv)).

Definition certPem (der : list byte) : list byte :=
  pem_EncodeToMemory (mkBlock "CERTIFICATE" der).

(** The calls a computation adds to the record when run from [st]. *)
Definition callsOf {A} (m : M A) (st : State) : list Call :=
  drop (List.length (calls st)) (calls (snd (m st))).

Definition isGeneratePem (c : Call) : bool :=
  match c with CallGeneratePem _ => true | _ => false end.

Definition isCacheSet (c : Call) : bool :=
  match c with CallCacheSet _ _ => true | _ => false end.

(** How many times the forge was entered among [cs]. *)
Definition forgeCount (cs : list Call) : nat :=
  List.length (List.filter isGeneratePem cs).

(** The host a call is made for: the cache key, the forge argument, the
    subject common name of the template handed to the signer. *)
Definition hostOf (c : Call) : string :=
  match c with
  | CallCacheGet h => h
  | CallCacheSet h _ => h
  | CallGeneratePem h => h
  | CallCreateCertificate tmpl _ => CommonName (Subject tmpl)
  end.

(** ** Process start: package initialisation *)

Definition Error (e : error) : string := let '(errorString m) := e in m.

Definition nilDereference : string :=
  "runtime error: invalid memory address or nil pointer dereference".

(** [loadRootCA]: [block, _ := pem.Decode(rootCAPem)] and then
    [block.Bytes], which dereferences a nil [block] when no PEM block was
    found. *)
Definition loadRootCA (rootCAPem : list byte) : Outcome (Result ParsedCertificate) :=
  match pem_Decode rootCAPem with
  | None => Panics nilDereference
  | Some block => Returns (x509_ParseCertificate (blockBytes block))
  end.

(** [loadRootKey] *)
Definition loadRootKey (rootKeyPem : list byte) : Outcome (Result PrivateKey) :=
  match pem_Decode rootKeyPem with
  | None => Panics nilDereference
  | Some block => Returns (x509_ParsePKCS1PrivateKey (blockBytes block))
  end.

(** [func init()] over the two embedded PEM texts. *)
Definition init (rootCAPem rootKeyPem : list byte) : Outcome Globals :=
  match loadRootCA rootCAPem with
  | Panics m => Panics m
  | Returns (inr err) => Panics ("Load root ca failed: " ++ Error err)
  | Returns (inl ca) =>
      match loadRootKey rootKeyPem with
      | Panics m => Panics m
      | Returns (inr err) => Panics ("Load root key failed: " ++ Error err)
      | Returns (inl key) => Returns (mkGlobals ca key)
      end
  end.

Definition startProcess {A} (rootCAPem rootKeyPem : list byte)
    (main : Globals -> A) : Process A :=
  match init rootCAPem rootKeyPem with
  | Panics m => Aborted m
  | Returns g => Ran (main g)
  end.

End Package.

(** ** Stand-ins for the library, to run the model on concrete inputs *)

Module Doubles.

Definition loopback : IP :=
  [x00; x00; x00; x00; x00; x00; x00; x00; x00; x00; xff; xff; x7f; x00; x00; x01].

(** A library in which keys are numbers, the key drawn at position [n] of the
    random source is [n] itself, the read at position 7 fails, the signer
    fails on the subject ["unsignable"], no key pair can be assembled for the
    key drawn at position 4, and the clock, started at noon on a leap day,
    ticks once every two readings. *)
#[export] Instance lib : GoLib := {|
  PrivateKey := nat;
  PublicKey := nat;
  ParsedCertificate := list byte;
  tlsCertificate := (list byte * list byte)%type;
  Public := fun k => k;
  rsa_GenerateKey := fun n _ =>
    if Nat.eqb n 7 then inr (errorString "short read") else inl n;
  x509_CreateCertificate := fun _ tmpl _ pub _ =>
    if String.eqb (CommonName (Subject tmpl)) "unsignable"
    then inr (errorString "x509: cannot sign")
    else inl (byte_of_Z (SerialNumber tmpl) :: repeat x02 pub);
  x509_MarshalPKCS1PrivateKey := fun k => repeat x01 k;
  x509_ParseCertificate := fun bs =>
    match bs with
    | x30 :: _ => inl bs
    | _ => inr (errorString "x509: malformed certificate")
    end;
  x509_ParsePKCS1PrivateKey := fun bs =>
    match bs with
    | x30 :: _ => inl (List.length bs)
    | _ => inr (errorString "x509: failed to parse private key")
    end;
  pem_EncodeToMemory := fun b => (bytes_of_string (blockType b) ++ x0a :: blockBytes b)%list;
  pem_Decode := fun bs =>
    match bs with
    | x2d :: rest => Some (mkBlock "" rest)
    | _ => None
    end;
  tls_X509KeyPair := fun c k =>
    if Nat.eqb (List.length k) 20 then inr (errorString "tls: private key does not match public key")
    else inl (c, k);
  net_ParseIP := fun h => if String.eqb h "127.0.0.1" then Some loopback else None;
  time_Now := fun n => midnight 2024 2 29 + 43200 * 1000000000 + Z.of_nat (n / 2)
|}.

(** An in-memory store behind the [Cache] interface. *)
#[export] Instance mapCache : Cache (gmap string (list byte * list byte)) (list byte * list byte) := {|
  cache_Get := fun m h => m !! h;
  cache_Set := fun m h v => <[h := v]> m
|}.

Definition globals : Globals := mkGlobals [x30] 1%nat.

Definition fresh (c : option (gmap string (list byte * list byte)))
  : State (C := gmap string (list byte * list byte)) :=
  mkSt c 0 0 [].

End Doubles.

End Cert.

(** ** Package [proxychannel]: the lifecycle coordinator

    The goroutines of [Run] and [RunContext] as an interleaving transition
    system.  Each goroutine has a program counter named after the statement
    it executes next; a label says which goroutine moves, or what the
    environment does (a signal is delivered, the caller cancels the context,
    listening fails, the connections of a draining server become idle or the
    grace deadline passes).

    Library behaviour built into the steps:
    - [signal.Notify] never blocks on the channel: a signal is put in the
      buffer of every registered channel that has room and is dropped for the
      others; with no channel registered the signal ends the process;
    - [ListenAndServe] returns [ErrServerClosed] once [Shutdown] has been
      called, another error when listening or accepting fails, and does not
      return otherwise; [BaseContext] only supplies the context of incoming
      requests;
    - [Shutdown] first closes the listener, then waits for idle connections
      or for its context;
    - closing a closed channel panics; [os.Exit] ends the process. *)

Module Proxychannel.

Inductive Signal : Type := SIGHUP | SIGINT | SIGTERM | SIGQUIT.

(** What [ListenAndServe] returns. *)
Inductive ServeError : Type := ErrServerClosed | ErrListen.

Inductive Listener : Type := NotListening | Accepting | Closed.

Inductive Status : Type :=
  | Running
  | Exited (code : Z)
  | Panicked (msg : string)
  | Killed (sig : Signal).

(** How the coordinator was entered; [RunContext] records whether the caller
    passed a context ([false] is the nil context). *)
Inductive Entry : Type :=
  | ViaRun
  | ViaRunContext (provided : bool).

(** [runServerBlocking] *)
Inductive BlockingPc : Type :=
  | BEnter                          (* derive ctx, defers, BaseContext *)
  | BListenAndServe                 (* pc.server.ListenAndServe() is called *)
  | BServing                        (* inside ListenAndServe *)
  | BCloseDone (err : ServeError)   (* deferred close(pc.serverDone) *)
  | BCancel (err : ServeError)      (* deferred cancel() *)
  | BReturned (err : ServeError).

(** The goroutine that calls [Run] or [RunContext]. *)
Inductive MainPc : Type :=
  | MAdd                            (* pc.waitGroup.Add(1) *)
  | MGoExtensionManager             (* go pc.runExtensionManager() *)
  | RGoServer                       (* runServer: go func() { runServerBlocking ... }() *)
  | RNotify                         (* runServer: make(chan os.Signal, 1); signal.Notify *)
  | RAwaitSignal                    (* runServer: <-signalChan *)
  | RGoEscalation                   (* runServer: go func() { <-signalChan ... }() *)
  | RShutdown                       (* stop(): pc.server.Shutdown(gracefulCtx) is called *)
  | RDraining                       (* inside Shutdown, listener closed *)
  | RCloseDone                      (* runServer: deferred close(pc.serverDone) *)
  | CBlocking (b : BlockingPc)      (* RunContext: err := pc.runServerBlocking(ctx) *)
  | MWait                           (* pc.waitGroup.Wait() *)
  | MReturned.

(** [runExtensionManager] *)
Inductive ExtPc : Type :=
  | EGoSetup                        (* go pc.extensionManager.Setup() *)
  | ENotify                         (* make(chan os.Signal, 1); signal.Notify *)
  | EAwaitSignal                    (* <-signalChan *)
  | EAwaitServerDone                (* <-pc.serverDone *)
  | ECleanup                        (* pc.extensionManager.Cleanup() is called *)
  | EInCleanup                      (* inside Cleanup *)
  | EDone                           (* deferred pc.waitGroup.Done() *)
  | EFinished.

(** The goroutine started by [runServer] around [runServerBlocking]. *)
Inductive ServerPc : Type :=
  | SBlocking (b : BlockingPc)
  | SExit                           (* Logger.Errorf; os.Exit(1) *)
  | SFinished.

(** The goroutine started by [runServer] after the first signal. *)
Inductive EscalationPc : Type :=
  | XAwaitSignal                    (* <-signalChan *)
  | XExit.                          (* Logger.Error; os.Exit(1) *)

(** A [chan os.Signal] of capacity 1 given to [signal.Notify]: [None] before
    it is registered, then its buffer. *)
Definition SignalChan : Type := option (option Signal).

Record State : Type := mkState {
  entry : Entry;
  status : Status;
  mainPc : MainPc;
  extPc : option ExtPc;
  serverPc : option ServerPc;
  escalationPc : option EscalationPc;
  setupStarted : bool;
  extSignalChan : SignalChan;
  serverSignalChan : SignalChan;
  waitGroup : Z;
  serverDone : bool;                (* true once the channel is closed *)
  listener : Listener;
  inShutdown : bool;
  parentCancelled : bool;           (* the context given to RunContext *)
  ctxCancelled : bool;              (* the context derived in runServerBlocking *)
  log : list string
}.

Definition initial (e : Entry) : State :=
  {| entry := e; status := Running; mainPc := MAdd; extPc := None;
     serverPc := None; escalationPc := None; setupStarted := false;
     extSignalChan := None; serverSignalChan := None; waitGroup := 0;
     serverDone := false; listener := NotListening; inShutdown := false;
     parentCancelled := false; ctxCancelled := false; log := [] |}.

Section Updates.
Variable s : State.

Definition setStatus (x : Status) : State :=
  mkState (entry s) x (mainPc s) (extPc s) (serverPc s) (escalationPc s)
    (setupStarted s) (extSignalChan s) (serverSignalChan s) (waitGroup s)
    (serverDone s) (listener s) (inShutdown s) (parentCancelled s)
    (ctxCancelled s) (log s).

Definition setMainPc (x : MainPc) : State :=
  mkState (entry s) (status s) x (extPc s) (serverPc s) (escalationPc s)
    (setupStarted s) (extSignalChan s) (serverSignalChan s) (waitGroup s)
    (serverDone s) (listener s) (inShutdown s) (parentCancelled s)
    (ctxCancelled s) (log s).

Definition setExtPc (x : option ExtPc) : State :=
  mkState (entry s) (status s) (mainPc s) x (serverPc s) (escalationPc s)
    (setupStarted s) (extSignalChan s) (serverSignalChan s) (waitGroup s)
    (serverDone s) (listener s) (inShutdown s) (parentCancelled s)
    (ctxCancelled s) (log s).

Definition setServerPc (x : option ServerPc) : State :=
  mkState (entry s) (status s) (mainPc s) (extPc s) x (escalationPc s)
    (setupStarted s) (extSignalChan s) (serverSignalChan s) (waitGroup s)
    (serverDone s) (listener s) (inShutdown s) (parentCancelled s)
    (ctxCancelled s) (log s).

Definition setEscalationPc (x : option EscalationPc) : State :=
  mkState (entry s) (status s) (mainPc s) (extPc s) (serverPc s) x
    (setupStarted s) (extSignalChan s) (serverSignalChan s) (waitGroup s)
    (serverDone s) (listener s) (inShutdown s) (parentCancelled s)
    (ctxCancelled s) (log s).

Definition setSetupStarted (x : bool) : State :=
  mkState (entry s) (status s) (mainPc s) (extPc s) (serverPc s) (escalationPc s)
    x (extSignalChan s) (serverSignalChan s) (waitGroup s)
    (serverDone s) (listener s) (inShutdown s) (parentCancelled s)
    (ctxCancelled s) (log s).

Definition setExtSignalChan (x : SignalChan) : State :=
  mkState (entry s) (status s) (mainPc s) (extPc s) (serverPc s) (escalationPc s)
    (setupStarted s) x (serverSignalChan s) (waitGroup s)
    (serverDone s) (listener s) (inShutdown s) (parentCancelled s)
    (ctxCancelled s) (log s).

Definition setServerSignalChan (x : SignalChan) : State :=
  mkState (entry s) (status s) (mainPc s) (extPc s) (serverPc s) (escalationPc s)
    (setupStarted s) (extSignalChan s) x (waitGroup s)
    (serverDone s) (listener s) (inShutdown s) (parentCancelled s)
    (ctxCancelled s) (log s).

Definition setWaitGroup (x : Z) : State :=
  mkState (entry s) (status s) (mainPc s) (extPc s) (serverPc s) (escalationPc s)
    (setupStarted s) (extSignalChan s) (serverSignalChan s) x
    (serverDone s) (listener s) (inShutdown s) (parentCancelled s)
    (ctxCancelled s) (log s).

Definition setServerDone (x : bool) : State :=
  mkState (entry s) (status s) (mainPc s) (extPc s) (serverPc s) (escalationPc s)
    (setupStarted s) (extSignalChan s) (serverSignalChan s) (waitGroup s)
    x (listener s) (inShutdown s) (parentCancelled s)
    (ctxCancelled s) (log s).

Definition setListener (x : Listener) : State :=
  mkState (entry s) (status s) (mainPc s) (extPc s) (serverPc s) (escalationPc s)
    (setupStarted s) (extSignalChan s) (serverSignalChan s) (waitGroup s)
    (serverDone s) x (inShutdown s) (parentCancelled s)
    (ctxCancelled s) (log s).

Definition setInShutdown (x : bool) : State :=
  mkState (entry s) (status s) (mainPc s) (extPc s) (serverPc s) (escalationPc s)
    (setupStarted s) (extSignalChan s) (serverSignalChan s) (waitGroup s)
    (serverDone s) (listener s) x (parentCancelled s)
    (ctxCancelled s) (log s).

Definition setParentCancelled (x : bool) : State :=
  mkState (entry s) (status s) (mainPc s) (extPc s) (serverPc s) (escalationPc s)
    (setupStarted s) (extSignalChan s) (serverSignalChan s) (waitGroup s)
    (serverDone s) (listener s) (inShutdown s) x
    (ctxCancelled s) (log s).

Definition setCtxCancelled (x : bool) : State :=
  mkState (entry s) (status s) (mainPc s) (extPc s) (serverPc s) (escalationPc s)
    (setupStarted s) (extSignalChan s) (serverSignalChan s) (waitGroup s)
    (serverDone s) (listener s) (inShutdown s) (parentCancelled s)
    x (log s).

(** [Logger.Info], [Logger.Error], [Logger.Errorf] *)
Definition logged (msg : string) : State :=
  mkState (entry s) (status s) (mainPc s) (extPc s) (serverPc s) (escalationPc s)
    (setupStarted s) (extSignalChan s) (serverSignalChan s) (waitGroup s)
    (serverDone s) (listener s) (inShutdown s) (parentCancelled s)
    (ctxCancelled s) (log s ++ [msg]).

End Updates.

Inductive Thread : Type := TMain | TExtensionManager | TServer | TEscalation.

Inductive Label : Type :=
  | Go (t : Thread)                 (* a goroutine executes its next statement *)
  | Deliver (sig : Signal)          (* the operating system delivers a signal *)
  | CancelContext                   (* the caller of RunContext cancels its context *)
  | ListenFails                     (* net.Listen or Accept fails *)
  | ConnectionsIdle                 (* a draining server has no active connection left *)
  | DeadlineExceeded.               (* the 5 second grace context expires *)

(** [signal.Notify]'s delivery to one channel: a non-blocking send. *)
Definition notify (c : SignalChan) (sig : Signal) : SignalChan :=
  match c with
  | Some None => Some (Some sig)
  | _ => c
  end.

(** [<-signalChan]: the received signal and the emptied channel, when there
    is something to receive. *)
Definition receive (c : SignalChan) : option (Signal * SignalChan) :=
  match c with
  | Some (Some sig) => Some (sig, Some None)
  | _ => None
  end.

(** [close(pc.serverDone)] *)
Definition closeServerDone (s : State) : State :=
  if serverDone s then setStatus s (Panicked "close of closed channel")
  else setServerDone s true.

(** One statement of [runServerBlocking]; [None] when it blocks or is over. *)
Definition blockingStep (b : BlockingPc) (s : State) : option (BlockingPc * State) :=
  match b with
  | BEnter => Some (BListenAndServe, s)
  | BListenAndServe =>
      if inShutdown s then Some (BCloseDone ErrServerClosed, s)
      else Some (BServing, setListener s Accepting)
  | BServing =>
      if inShutdown s then Some (BCloseDone ErrServerClosed, s) else None
  | BCloseDone err => Some (BCancel err, closeServerDone s)
  | BCancel err => Some (BReturned err, setCtxCancelled s true)
  | BReturned _ => None
  end.

(** [ListenAndServe] returning an error other than [ErrServerClosed]:
    [net.Listen] failed, or [Accept] failed and [Serve] closed the listener
    on its way out. *)
Definition blockingFail (b : BlockingPc) (s : State) : option (BlockingPc * State) :=
  match b with
  | BListenAndServe =>
      if inShutdown s then None else Some (BCloseDone ErrListen, s)
  | BServing =>
      if inShutdown s then None else Some (BCloseDone ErrListen, setListener s Closed)
  | _ => None
  end.

Definition stepMain (s : State) : option State :=
  match mainPc s with
  | MAdd => Some (setMainPc (setWaitGroup s (waitGroup s + 1)) MGoExtensionManager)
  | MGoExtensionManager =>
      Some (setMainPc (setExtPc s (Some EGoSetup))
              (match entry s with
               | ViaRun => RGoServer
               | ViaRunContext _ => CBlocking BEnter
               end))
  | RGoServer => Some (setMainPc (setServerPc s (Some (SBlocking BEnter))) RNotify)
  | RNotify => Some (setMainPc (setServerSignalChan s (Some None)) RAwaitSignal)
  | RAwaitSignal =>
      match receive (serverSignalChan s) with
      | Some (_, c) =>
          Some (setMainPc
                  (logged (setServerSignalChan s c)
                     "os.Interrupt captured by HTTP server, shutting down HTTP server...")
                  RGoEscalation)
      | None => None
      end
  | RGoEscalation => Some (setMainPc (setEscalationPc s (Some XAwaitSignal)) RShutdown)
  | RShutdown =>
      Some (setMainPc
              (setListener (setInShutdown s true)
                 (match listener s with Accepting => Closed | l => l end))
              RDraining)
  | RDraining => None
  | RCloseDone => Some (setMainPc (closeServerDone s) MWait)
  | CBlocking (BReturned _) => Some (setMainPc s MWait)
  | CBlocking b =>
      match blockingStep b s with
      | Some (b', s') => Some (setMainPc s' (CBlocking b'))
      | None => None
      end
  | MWait => if waitGroup s =? 0 then Some (setMainPc s MReturned) else None
  | MReturned => None
  end.

Definition stepExtensionManager (s : State) : option State :=
  match extPc s with
  | None => None
  | Some EGoSetup => Some (setExtPc (setSetupStarted s true) (Some ENotify))
  | Some ENotify => Some (setExtPc (setExtSignalChan s (Some None)) (Some EAwaitSignal))
  | Some EAwaitSignal =>
      match receive (extSignalChan s) with
      | Some (_, c) =>
          Some (setExtPc
                  (logged (setExtSignalChan s c)
                     "os.Interrupt captured by ExtensionManager, waiting for HTTP server to stop...")
                  (Some EAwaitServerDone))
      | None => None
      end
  | Some EAwaitServerDone =>
      if serverDone s then
        Some (setExtPc
                (logged s "HTTP server has been shut down, Cleanup ExtensionManager...")
                (Some ECleanup))
      else None
  | Some ECleanup => Some (setExtPc s (Some EInCleanup))
  | Some EInCleanup =>
      Some (setExtPc
              (logged s "Cleanup ExtensionManager done, ExtensionManager gracefully stopped!")
              (Some EDone))
  | Some EDone => Some (setExtPc (setWaitGroup s (waitGroup s - 1)) (Some EFinished))
  | Some EFinished => None
  end.

Definition stepServer (s : State) : option State :=
  match serverPc s with
  | None => None
  | Some (SBlocking (BReturned ErrServerClosed)) => Some (setServerPc s (Some SFinished))
  | Some (SBlocking (BReturned ErrListen)) => Some (setServerPc s (Some SExit))
  | Some (SBlocking b) =>
      match blockingStep b s with
      | Some (b', s') => Some (setServerPc s' (Some (SBlocking b')))
      | None => None
      end
  | Some SExit =>
      Some (setStatus (logged s "HTTP server ListenAndServe: listen error") (Exited 1))
  | Some SFinished => None
  end.

Definition stepEscalation (s : State) : option State :=
  match escalationPc s with
  | None => None
  | Some XAwaitSignal =>
      match receive (serverSignalChan s) with
      | Some (_, c) => Some (setEscalationPc (setServerSignalChan s c) (Some XExit))
      | None => None
      end
  | Some XExit =>
      Some (setStatus
              (logged s
                 "os.Interrupt captured twice by HTTP server, forcefully terminating HTTP server!")
              (Exited 1))
  end.

(** A signal arrives: with no channel registered the process dies of it. *)
Definition deliver (sig : Signal) (s : State) : State :=
  match extSignalChan s, serverSignalChan s with
  | None, None => setStatus s (Killed sig)
  | _, _ =>
      setServerSignalChan
        (setExtSignalChan s (notify (extSignalChan s) sig))
        (notify (serverSignalChan s) sig)
  end.

(** Listening fails in whichever goroutine runs [runServerBlocking]. *)
Definition listenFails (s : State) : option State :=
  match mainPc s, serverPc s with
  | CBlocking b, _ =>
      match blockingFail b s with
      | Some (b', s') => Some (setMainPc s' (CBlocking b'))
      | None => None
      end
  | _, Some (SBlocking b) =>
      match blockingFail b s with
      | Some (b', s') => Some (setServerPc s' (Some (SBlocking b')))
      | None => None
      end
  | _, _ => None
  end.

(** [Shutdown] returns: all connections idle, or the grace context done. *)
Definition shutdownReturns (msg : string) (s : State) : option State :=
  match mainPc s with
  | RDraining => Some (setMainPc (logged s msg) RCloseDone)
  | _ => None
  end.

Definition cancelContext (s : State) : option State :=
  match entry s with
  | ViaRunContext true => Some (setParentCancelled s true)
  | _ => None
  end.

(** One transition; nothing moves once the process has ended. *)
Definition step (l : Label) (s : State) : option State :=
  match status s with
  | Running =>
      match l with
      | Go TMain => stepMain s
      | Go TExtensionManager => stepExtensionManager s
      | Go TServer => stepServer s
      | Go TEscalation => stepEscalation s
      | Deliver sig => Some (deliver sig s)
      | CancelContext => cancelContext s
      | ListenFails => listenFails s
      | ConnectionsIdle => shutdownReturns "HTTP server gracefully stopped" s
      | DeadlineExceeded =>
          shutdownReturns "HTTP server Shutdown error: context deadline exceeded" s
      end
  | _ => None
  end.

Fixpoint run (ls : list Label) (s : State) : option State :=
  match ls with
  | [] => Some s
  | l :: ls' =>
      match step l s with
      | Some s' => run ls' s'
      | None => None
      end
  end.

(** The states an execution entered through [e] can be in. *)
Definition reachable (e : Entry) (s : State) : Prop :=
  exists ls, run ls (initial e) = Some s.

(** *** Observations on states, for the properties below *)

(** [Cleanup()] has been called. *)
Definition cleanupInvoked (s : State) : bool :=
  match extPc s with
  | Some (EInCleanup | EDone | EFinished) => true
  | _ => false
  end.

(** [runExtensionManager] is past [<-pc.serverDone]. *)
Definition pastAwaitServerDone (p : option ExtPc) : bool :=
  match p with
  | Some (ECleanup | EInCleanup | EDone | EFinished) => true
  | _ => false
  end.

(** [runServerBlocking] is past its deferred [close(pc.serverDone)]. *)
Definition blockingClosed (b : BlockingPc) : bool :=
  match b with
  | BCancel _ | BReturned _ => true
  | _ => false
  end.

(** [ListenAndServe] has returned and [runServerBlocking] has closed
    [serverDone], in the goroutine that runs it: the server goroutine under
    [Run], the caller's under [RunContext]. *)
Definition blockingReturned (s : State) : bool :=
  match entry s with
  | ViaRun =>
      match serverPc s with
      | Some (SBlocking b) => blockingClosed b
      | Some SExit | Some SFinished => true
      | None => false
      end
  | ViaRunContext _ =>
      match mainPc s with
      | CBlocking b => blockingClosed b
      | MWait | MReturned => true
      | _ => false
      end
  end.

(** [runServer] has returned: [Shutdown] is over and the deferred close ran. *)
Definition runServerReturned (s : State) : bool :=
  match entry s, mainPc s with
  | ViaRun, (MWait | MReturned) => true
  | _, _ => false
  end.

(** The goroutine that runs [runServerBlocking] is inside [ListenAndServe]. *)
Definition serving (s : State) : bool :=
  match entry s with
  | ViaRun =>
      match serverPc s with
      | Some (SBlocking BServing) => true
      | _ => false
      end
  | ViaRunContext _ =>
      match mainPc s with
      | CBlocking BServing => true
      | _ => false
      end
  end.

(** [runServer] has called [Shutdown]. *)
Definition shutdownCalled (s : State) : bool :=
  match entry s, mainPc s with
  | ViaRun, (RDraining | RCloseDone | MWait | MReturned) => true
  | _, _ => false
  end.

(** The program counters fit the entry point: [Run] never executes
    [runServerBlocking] on the caller's goroutine and has its server
    goroutine from [go func()] on; [RunContext] executes nothing of
    [runServer] and starts neither of its goroutines. *)
Definition wellFormed (s : State) : bool :=
  match entry s with
  | ViaRun =>
      match mainPc s, serverPc s with
      | CBlocking _, _ => false
      | (MAdd | MGoExtensionManager | RGoServer), None => true
      | (MAdd | MGoExtensionManager | RGoServer), Some _ => false
      | _, Some _ => true
      | _, None => false
      end
  | ViaRunContext _ =>
      match mainPc s, serverPc s, escalationPc s with
      | (MAdd | MGoExtensionManager | CBlocking _ | MWait | MReturned), None, None => true
      | _, _, _ => false
      end
  end.

(** What holds in every state of every execution. *)
Record Inv (s : State) : Prop := mkInv {
  inv_wellFormed : wellFormed s = true;
  inv_cleanup : pastAwaitServerDone (extPc s) = true -> serverDone s = true;
  inv_done :
    serverDone s = true -> blockingReturned s = true \/ runServerReturned s = true;
  inv_listener : listener s = Accepting -> inShutdown s = false /\ serving s = true;
  inv_shutdown : shutdownCalled s = true -> inShutdown s = true;
  inv_noShutdown : inShutdown s = true -> entry s = ViaRun
}.

(** [runServer] has received its first signal. *)
Definition shuttingDown (s : State) : bool :=
  match entry s, mainPc s with
  | ViaRun, (RGoEscalation | RShutdown | RDraining | RCloseDone | MWait | MReturned) => true
  | _, _ => false
  end.

(** [runServer] is past [signal.Notify]. *)
Definition notified (s : State) : bool :=
  match entry s, mainPc s with
  | ViaRun, (MAdd | MGoExtensionManager | RGoServer | RNotify) => false
  | ViaRun, _ => true
  | _, _ => false
  end.

Definition nonEmpty (c : SignalChan) : bool :=
  match c with
  | Some (Some _) => true
  | _ => false
  end.

(** The forced exit is under way: a signal waits in [runServer]'s channel
    for the escalation goroutine, which is about to be started or is waiting
    to receive, or that goroutine has received one and is about to exit. *)
Definition forcedExitPending (s : State) : bool :=
  match entry s with
  | ViaRun =>
      match escalationPc s, mainPc s with
      | None, RGoEscalation => nonEmpty (serverSignalChan s)
      | Some XAwaitSignal, (RShutdown | RDraining | RCloseDone | MWait | MReturned) =>
          nonEmpty (serverSignalChan s)
      | Some XExit, _ => true
      | _, _ => false
      end
  | ViaRunContext _ => false
  end.

(** What holds of the signal channel and the escalation goroutine under
    [Run]: the channel stays registered, and the goroutine exists from the
    statement after [go func()] on. *)
Record RunInv (s : State) : Prop := mkRunInv {
  run_registered : notified s = true -> serverSignalChan s <> None;
  run_notYet : shuttingDown s = false -> escalationPc s = None;
  run_escalation :
    shuttingDown s = true ->
    match escalationPc s with
    | None => mainPc s = RGoEscalation
    | Some _ => mainPc s <> RGoEscalation
    end
}.

(** Under [RunContext], the caller's goroutine sits in [ListenAndServe] with
    the listener open. *)
Record Listening (s : State) : Prop := mkListening {
  lis_entry : exists provided, entry s = ViaRunContext provided;
  lis_status : status s = Running;
  lis_listener : listener s = Accepting;
  lis_main : mainPc s = CBlocking BServing;
  lis_serverDone : serverDone s = false;
  lis_inShutdown : inShutdown s = false;
  lis_server : serverPc s = None;
  lis_escalation : escalationPc s = None
}.

(** The only steps of a forced exit: [runServer] starts the escalation
    goroutine, that goroutine runs. *)
Definition escalates (l : Label) : bool :=
  match l with
  | Go TMain | Go TEscalation => true
  | _ => false
  end.

Definition forcedExitMessage : string :=
  "os.Interrupt captured twice by HTTP server, forcefully terminating HTTP server!".

(** Two signals before [runServer] has received the first, then a shutdown
    in which [Cleanup] completes while [Shutdown] still drains. *)
Definition twoSignalsAtOnce : list Label :=
  [ Go TMain; Go TMain; Go TMain; Go TMain;
    Go TExtensionManager; Go TExtensionManager;
    Go TServer; Go TServer;
    Deliver SIGINT; Deliver SIGINT;
    Go TMain; Go TMain; Go TMain;
    Go TServer; Go TServer;
    Go TExtensionManager; Go TExtensionManager; Go TExtensionManager;
    Go TExtensionManager; Go TExtensionManager ].

(** Under [RunContext]: a signal is received by the extension manager, then a
    second signal arrives. *)
Definition twoSignalsUnderRunContext : list Label :=
  [ Go TMain; Go TMain; Go TMain; Go TMain;
    Go TExtensionManager; Go TExtensionManager;
    Deliver SIGINT; Go TExtensionManager; Deliver SIGTERM ].

(** Under [Run]: [runServer] has received a first signal. *)
Definition firstSignalReceived : list Label :=
  [ Go TMain; Go TMain; Go TMain; Go TMain; Deliver SIGINT; Go TMain ].

(** Under [RunContext]: the listener is up, then the context is cancelled
    and the extension manager runs on. *)
Definition serveUnderRunContext : list Label :=
  [ Go TMain; Go TMain; Go TMain; Go TMain ].

Definition afterCancel : list Label :=
  [ Go TExtensionManager; Go TExtensionManager; CancelContext ].

(** Under [Run]: one signal and a shutdown in which the server goroutine
    closes [serverDone] first, up to the call of [Cleanup]. *)
Definition gracefulShutdown : list Label :=
  [ Go TMain; Go TMain; Go TMain; Go TMain;
    Go TExtensionManager; Go TExtensionManager;
    Go TServer; Go TServer;
    Deliver SIGTERM;
    Go TMain; Go TMain; Go TMain;
    Go TServer; Go TServer;
    Go TExtensionManager; Go TExtensionManager; Go TExtensionManager ].

(** The same shutdown run to the end of [runServer]. *)
Definition shutdownToTheEnd : list Label :=
  (gracefulShutdown ++ [ ConnectionsIdle; Go TMain ])%list.

(** A label that is neither a signal nor a failure to listen. *)
Definition quiet (l : Label) : bool :=
  match l with
  | Deliver _ | ListenFails => false
  | _ => true
  end.

End Proxychannel.

(** * Properties *)

(** ** Byte strings *)

Module GoStringsFacts.
Import GoStrings.

Lemma append_cons (x : ascii) (a b : string) :
  (String x a ++ b)%string = String x (a ++ b).
Proof. reflexivity. Qed.

Lemma append_nil_l (b : string) : (""%string ++ b)%string = b.
Proof. reflexivity. Qed.

Lemma append_nil_r (a : string) : (a ++ "")%string = a.
Proof. induction a as [|x a IH]; [reflexivity|]. rewrite append_cons. now f_equal. Qed.

Lemma append_assoc (a b c : string) : ((a ++ b) ++ c)%string = (a ++ b ++ c)%string.
Proof.
  induction a as [|x a IH]; [reflexivity|].
  rewrite !append_cons. now f_equal.
Qed.

Lemma length_append (a b : string) :
  String.length (a ++ b) = (String.length a + String.length b)%nat.
Proof.
  induction a as [|x a IH]; [reflexivity|].
  rewrite append_cons. simpl. now f_equal.
Qed.

Lemma len_nonneg (s : string) : 0 <= len s.
Proof. unfold len. lia. Qed.

Lemma len_String (a : ascii) (s : string) : len (String a s) = 1 + len s.
Proof. unfold len. simpl String.length. lia. Qed.

Lemma len_append (a b : string) : len (a ++ b) = len a + len b.
Proof. unfold len. rewrite length_append. lia. Qed.

(** Two splits of one string at the same offset are the same split. *)
Lemma append_inj_length (a b c d : string) :
  (a ++ b)%string = (c ++ d)%string -> String.length a = String.length c ->
  a = c /\ b = d.
Proof.
  revert c. induction a as [|x a IH]; intros [|y c] Heq Hlen;
    try discriminate Hlen.
  - now split.
  - rewrite !append_cons in Heq. injection Heq as -> Heq. injection Hlen as Hlen.
    destruct (IH c Heq Hlen) as [-> ->]. now split.
Qed.

Lemma substring_middle (a b c : string) :
  String.substring (String.length a) (String.length b) (a ++ b ++ c) = b.
Proof.
  induction a as [|x a IH]; [|rewrite append_cons; exact IH].
  rewrite append_nil_l. simpl String.length.
  induction b as [|y b IHb].
  - now destruct c.
  - rewrite append_cons. simpl. now rewrite IHb.
Qed.

Lemma slice_middle (a b c : string) :
  slice (a ++ b ++ c) (len a) (len a + len b) = b.
Proof.
  unfold slice, len.
  replace (Z.of_nat (String.length a) + Z.of_nat (String.length b)
           - Z.of_nat (String.length a)) with (Z.of_nat (String.length b)) by lia.
  rewrite !Nat2Z.id. apply substring_middle.
Qed.

Lemma slice_prefix (a c : string) : slice (a ++ c) 0 (len a) = a.
Proof. apply (slice_middle "" a c). Qed.

Lemma slice_suffix (a b : string) : slice (a ++ b) (len a) (len (a ++ b)) = b.
Proof.
  rewrite len_append. rewrite <- (append_nil_r b) at 1. apply slice_middle.
Qed.

Lemma IndexByteString_bounds (s : string) (c : ascii) :
  -1 <= IndexByteString s c < len s.
Proof.
  induction s as [|a s IH]; simpl.
  - unfold len. simpl. lia.
  - rewrite len_String. destruct (Ascii.eqb a c); [pose proof (len_nonneg s); lia|].
    destruct (Z.ltb_spec (IndexByteString s c) 0); lia.
Qed.

Lemma LastIndexByteString_bounds (s : string) (c : ascii) :
  -1 <= LastIndexByteString s c < len s.
Proof.
  induction s as [|a s IH]; simpl.
  - unfold len. simpl. lia.
  - rewrite len_String. destruct (Z.leb_spec 0 (LastIndexByteString s c)); [lia|].
    pose proof (len_nonneg s). destruct (Ascii.eqb a c); lia.
Qed.

(** The first occurrence splits the string; nothing before it is [c]. *)
Lemma IndexByteString_split (s : string) (c : ascii) :
  0 <= IndexByteString s c ->
  exists pre post,
    s = (pre ++ String c post)%string /\ len pre = IndexByteString s c
    /\ IndexByteString pre c = -1.
Proof.
  induction s as [|a s IH]; simpl; [lia|].
  destruct (Ascii.eqb_spec a c) as [->|Hne].
  - intros _. exists ""%string, s. repeat split.
  - destruct (Z.ltb_spec (IndexByteString s c) 0) as [Hlt|Hge]; [lia|].
    intros _. destruct (IH Hge) as (pre & post & Heq & Hlen & Hno).
    exists (String a pre), post. repeat split.
    + rewrite append_cons. now f_equal.
    + rewrite len_String. lia.
    + simpl. destruct (Ascii.eqb_spec a c); [contradiction|]. now rewrite Hno.
Qed.

(** The last occurrence splits the string; nothing after it is [c]. *)
Lemma LastIndexByteString_split (s : string) (c : ascii) :
  0 <= LastIndexByteString s c ->
  exists pre post,
    s = (pre ++ String c post)%string /\ len pre = LastIndexByteString s c
    /\ LastIndexByteString post c = -1.
Proof.
  induction s as [|a s IH]; simpl; [lia|].
  destruct (Z.leb_spec 0 (LastIndexByteString s c)) as [Hge|Hlt].
  - intros _. destruct (IH Hge) as (pre & post & Heq & Hlen & Hno).
    exists (String a pre), post. repeat split.
    + rewrite append_cons. now f_equal.
    + rewrite len_String. lia.
    + exact Hno.
  - destruct (Ascii.eqb_spec a c) as [->|Hne]; [|lia].
    intros _. exists ""%string, s. repeat split.
    pose proof (LastIndexByteString_bounds s c). lia.
Qed.

(** A string without [c] has neither a first nor a last occurrence. *)
Lemma LastIndexByteString_none (s : string) (c : ascii) :
  IndexByteString s c = -1 -> LastIndexByteString s c = -1.
Proof.
  induction s as [|a s IH]; simpl; [reflexivity|].
  destruct (Ascii.eqb a c); [lia|].
  destruct (Z.ltb_spec (IndexByteString s c) 0) as [Hlt|Hge]; [|lia].
  intros _. pose proof (IndexByteString_bounds s c).
  rewrite IH by lia. reflexivity.
Qed.

End GoStringsFacts.

(** ** [net.SplitHostPort] *)

Module GoNetFacts.
Import GoStrings GoNet GoStringsFacts.

(** The last colon cuts the string into what precedes and what follows. *)
Lemma cut_at_last_colon (s : string) :
  0 <= LastIndexByteString s ":" ->
  s = (slice s 0 (LastIndexByteString s ":") ++ ":"
       ++ slice s (LastIndexByteString s ":" + 1) (len s))%string.
Proof.
  intros Hi. destruct (LastIndexByteString_split s ":" Hi) as (pre & post & Heq & Hlen & _).
  rewrite <- Hlen. clear Hlen Hi. subst s.
  rewrite slice_prefix.
  change (pre ++ String ":" post)%string with (pre ++ ":" ++ post)%string.
  rewrite <- (append_assoc pre ":" post).
  replace (len pre + 1) with (len (pre ++ ":")) by (rewrite len_append; reflexivity).
  rewrite slice_suffix. apply append_assoc.
Qed.

Lemma byteIs_head (s : string) (c : ascii) :
  byteIs s 0 c = true -> exists rest, s = String c rest.
Proof.
  unfold byteIs, byteAt. simpl. destruct s as [|a rest]; simpl; [discriminate|].
  destruct (Ascii.eqb_spec a c) as [->|]; [|discriminate]. now exists rest.
Qed.

(** A bracketed host followed directly by the last colon. *)
Lemma cut_bracketed (s : string) :
  byteIs s 0 "[" = true ->
  0 <= IndexByteString s "]" ->
  IndexByteString s "]" + 1 = LastIndexByteString s ":" ->
  s = ("[" ++ slice s 1 (IndexByteString s "]") ++ "]:"
       ++ slice s (LastIndexByteString s ":" + 1) (len s))%string.
Proof.
  intros Hhead He Hi.
  destruct (byteIs_head _ _ Hhead) as (rest & Hs).
  destruct (IndexByteString_split s "]" He) as (pre & post & Heq & Hlen & _).
  assert (Hi' : 0 <= LastIndexByteString s ":") by lia.
  destruct (LastIndexByteString_split s ":" Hi') as (pre2 & post2 & Heq2 & Hlen2 & _).
  destruct pre as [|a pre'].
  { rewrite append_nil_l in Heq. rewrite Heq in Hs. discriminate Hs. }
  rewrite append_cons in Heq. rewrite Heq in Hs. injection Hs as -> _.
  assert (Hsplit : pre2 = ("[" ++ pre' ++ "]")%string /\ String ":" post2 = post).
  { apply append_inj_length.
    - rewrite <- Heq2, Heq.
      change (String "[" (pre' ++ String "]" post))%string
        with ("[" ++ pre' ++ "]" ++ post)%string.
      rewrite <- (append_assoc pre' "]" post), <- (append_assoc "[" (pre' ++ "]") post).
      reflexivity.
    - apply Nat2Z.inj. fold (len pre2). rewrite Hlen2, <- Hi, <- Hlen.
      unfold len. rewrite !length_append. simpl String.length.
      lia. }
  destruct Hsplit as [-> <-].
  rewrite <- Hi, <- Hlen. rewrite len_String.
  clear Hlen Hlen2 Hi Hi' He Hhead Heq2. subst s.
  change (String "[" (pre' ++ String "]" (String ":" post2)))%string
    with ("[" ++ pre' ++ "]:" ++ post2)%string.
  replace (1 + len pre') with (len "[" + len pre') by reflexivity.
  change 1 with (len "[") at 1.
  rewrite (slice_middle "[" pre' ("]:" ++ post2)).
  replace (len "[" + len pre' + 1 + 1) with (len ("[" ++ pre' ++ "]:"))
    by (rewrite !len_append; unfold len; simpl; lia).
  rewrite <- (append_assoc pre' "]:" post2), <- (append_assoc "[" (pre' ++ "]:") post2).
  rewrite slice_suffix.
  rewrite (append_assoc "[" (pre' ++ "]:") post2), (append_assoc pre' "]:" post2).
  reflexivity.
Qed.

(** When [SplitHostPort] succeeds, the input is the host, then a colon, then
    the port; the host either holds no colon or stood in brackets. *)
Lemma SplitHostPort_shape (s h p : string) :
  SplitHostPort s = inl (h, p) ->
  (s = (h ++ ":" ++ p)%string /\ IndexByteString h ":" = -1)
  \/ s = ("[" ++ h ++ "]:" ++ p)%string.
Proof.
  unfold SplitHostPort.
  destruct (Z.ltb_spec (LastIndexByteString s ":") 0) as [|Hi]; [discriminate|].
  destruct (byteIs s 0 "[") eqn:Hhead.
  - unfold splitBracketed.
    destruct (Z.ltb_spec (IndexByteString s "]") 0) as [|He]; [discriminate|].
    destruct (IndexByteString s "]" + 1 =? len s); [discriminate|].
    destruct (Z.eqb_spec (IndexByteString s "]" + 1) (LastIndexByteString s ":")) as [Hei|].
    + destruct (0 <=? IndexByteString _ "["); [discriminate|].
      destruct (0 <=? IndexByteString _ "]"); [discriminate|].
      intros [= <- <-]. right. now apply cut_bracketed.
    + destruct (byteIs s _ ":"); discriminate.
  - unfold splitPlain.
    destruct (Z.leb_spec 0 (IndexByteString (slice s 0 (LastIndexByteString s ":")) ":"))
      as [|Hno]; [discriminate|].
    destruct (0 <=? IndexByteString _ "["); [discriminate|].
    destruct (0 <=? IndexByteString _ "]"); [discriminate|].
    intros [= <- <-]. left. split; [now apply cut_at_last_colon|].
    pose proof (IndexByteString_bounds (slice s 0 (LastIndexByteString s ":")) ":"). lia.
Qed.

(** Without a colon there is no port to split off. *)
Lemma SplitHostPort_no_colon (s : string) :
  IndexByteString s ":" = -1 -> SplitHostPort s = inr missingPort.
Proof.
  intros H. unfold SplitHostPort. now rewrite (LastIndexByteString_none _ _ H).
Qed.

End GoNetFacts.

(** ** Hexadecimal text and big integers *)

Module GoBytesFacts.
Import GoBytes.

Lemma Z_of_byte_range (b : byte) : 0 <= Z_of_byte b < 256.
Proof.
  unfold Z_of_byte. pose proof (Byte.to_N_bounded b). lia.
Qed.

Lemma small_cases (d : Z) :
  0 <= d < 16 ->
  d = 0 \/ d = 1 \/ d = 2 \/ d = 3 \/ d = 4 \/ d = 5 \/ d = 6 \/ d = 7 \/
  d = 8 \/ d = 9 \/ d = 10 \/ d = 11 \/ d = 12 \/ d = 13 \/ d = 14 \/ d = 15.
Proof. lia. Qed.

(** Every digit that [hex] writes is read back as itself. *)
Lemma digitVal_hexdigit (d : Z) : 0 <= d < 16 -> digitVal (hexdigit d) = Some d.
Proof.
  intros H. destruct (small_cases d H) as
    [->|[->|[->|[->|[->|[->|[->|[->|[->|[->|[->|[->|[->|[->|[->| ->]]]]]]]]]]]]]]];
    reflexivity.
Qed.

(** No digit that [hex] writes is a sign. *)
Lemma hexdigit_not_sign (d : Z) :
  0 <= d < 16 -> hexdigit d <> "-"%char /\ hexdigit d <> "+"%char.
Proof.
  intros H. destruct (small_cases d H) as
    [->|[->|[->|[->|[->|[->|[->|[->|[->|[->|[->|[->|[->|[->|[->| ->]]]]]]]]]]]]]]];
    split; discriminate.
Qed.

Lemma high_nibble (b : byte) : 0 <= Z.shiftr (Z_of_byte b) 4 < 16.
Proof.
  pose proof (Z_of_byte_range b). rewrite Z.shiftr_div_pow2 by lia.
  change (2 ^ 4) with 16. split; [apply Z.div_pos; lia | apply Z.div_lt_upper_bound; lia].
Qed.

Lemma low_nibble (b : byte) : 0 <= Z.land (Z_of_byte b) 15 < 16.
Proof.
  change 15 with (Z.ones 4). rewrite Z.land_ones by lia.
  apply Z.mod_pos_bound. reflexivity.
Qed.

Lemma nibbles (b : byte) :
  Z.shiftr (Z_of_byte b) 4 * 16 + Z.land (Z_of_byte b) 15 = Z_of_byte b.
Proof.
  rewrite Z.shiftr_div_pow2 by lia. change 15 with (Z.ones 4).
  rewrite Z.land_ones by lia. change (2 ^ 4) with 16.
  pose proof (Z.div_mod (Z_of_byte b) 16). lia.
Qed.

(** Reading the hexadecimal text of [bs] continues the big-endian
    accumulation over [bs]. *)
Lemma scanDigits_EncodeToString (bs : list byte) (acc : Z) :
  scanDigits 16 (EncodeToString bs) acc
  = Some (fold_left (fun a b => a * 256 + Z_of_byte b) bs acc).
Proof.
  revert acc. induction bs as [|b bs IH]; intros acc; [reflexivity|].
  cbn [EncodeToString scanDigits fold_left].
  rewrite (digitVal_hexdigit _ (high_nibble b)).
  destruct (Z.ltb_spec (Z.shiftr (Z_of_byte b) 4) 16) as [_|Hge];
    [|pose proof (high_nibble b); lia].
  rewrite (digitVal_hexdigit _ (low_nibble b)).
  destruct (Z.ltb_spec (Z.land (Z_of_byte b) 15) 16) as [_|Hge];
    [|pose proof (low_nibble b); lia].
  rewrite IH. do 2 f_equal. pose proof (nibbles b). lia.
Qed.

(** [SetString] accepts what [hex.EncodeToString] writes for a non-empty byte
    string, and yields its big-endian value. *)
Lemma SetString_EncodeToString (bs : list byte) :
  bs <> [] -> SetString (EncodeToString bs) 16 = Some (be_value bs).
Proof.
  destruct bs as [|b bs]; [congruence|]. intros _.
  unfold SetString, be_value.
  pose proof (scanDigits_EncodeToString (b :: bs) 0) as Hscan.
  cbn [EncodeToString] in *.
  destruct (hexdigit_not_sign _ (high_nibble b)) as [Hm Hp].
  destruct (hexdigit (Z.shiftr (Z_of_byte b) 4)) as [b0 b1 b2 b3 b4 b5 b6 b7] eqn:Hd.
  destruct b0, b1, b2, b3, b4, b5, b6, b7;
    try (exfalso; apply Hm; reflexivity); try (exfalso; apply Hp; reflexivity);
    rewrite Hscan; reflexivity.
Qed.

Lemma fold_be_bounds (bs : list byte) (acc : Z) :
  0 <= acc ->
  acc * 256 ^ Z.of_nat (List.length bs)
  <= fold_left (fun a b => a * 256 + Z_of_byte b) bs acc
  < (acc + 1) * 256 ^ Z.of_nat (List.length bs).
Proof.
  revert acc. induction bs as [|b bs IH]; intros acc Hacc.
  - simpl. lia.
  - cbn [fold_left List.length]. rewrite Nat2Z.inj_succ, Z.pow_succ_r by lia.
    pose proof (Z_of_byte_range b).
    specialize (IH (acc * 256 + Z_of_byte b) ltac:(lia)).
    assert (0 < 256 ^ Z.of_nat (List.length bs)) by (apply Z.pow_pos_nonneg; lia).
    nia.
Qed.

Lemma be_value_bounds (bs : list byte) :
  0 <= be_value bs < 256 ^ Z.of_nat (List.length bs).
Proof.
  unfold be_value. pose proof (fold_be_bounds bs 0 ltac:(lia)). lia.
Qed.

End GoBytesFacts.

Module MD5Facts.

(** A digest is sixteen bytes. *)
Lemma Sum_length (data : list byte) : List.length (MD5.Sum data) = 16%nat.
Proof. reflexivity. Qed.

Lemma Sum_nonempty (data : list byte) : MD5.Sum data <> [].
Proof. intros H. pose proof (Sum_length data) as L. rewrite H in L. discriminate L. Qed.

End MD5Facts.

(** ** Civil dates *)

Module GoTimeFacts.
Import GoTime GoCalendar.

Lemma daysSinceEpoch_closed (year : Z) :
  daysSinceEpoch year = 365 * (year - 1) + leapsThrough (year - 1).
Proof.
  unfold daysSinceEpoch, leapsThrough, daysPer400Years, daysPer100Years, daysPer4Years.
  cbv zeta. Z.div_mod_to_equations. lia.
Qed.

Lemma isLeap_leapsThrough (year : Z) :
  leapsThrough year - leapsThrough (year - 1) = if isLeap year then 1 else 0.
Proof.
  unfold isLeap, leapsThrough.
  destruct (Z.eqb_spec (year mod 4) 0); destruct (Z.eqb_spec (year mod 100) 0);
    destruct (Z.eqb_spec (year mod 400) 0); cbn [andb orb negb];
    Z.div_mod_to_equations; lia.
Qed.

(** Eleven consecutive years hold one, two or three leap days. *)
Lemma leaps_in_eleven_years (n : Z) :
  1 <= leapsThrough (n + 11) - leapsThrough n <= 3.
Proof. unfold leapsThrough. Z.div_mod_to_equations. lia. Qed.

Lemma daysSinceEpoch_succ (year : Z) :
  daysSinceEpoch (year + 1) = daysSinceEpoch year + yearLength (isLeap year).
Proof.
  rewrite !daysSinceEpoch_closed. pose proof (isLeap_leapsThrough year) as H.
  replace (year + 1 - 1) with year by lia. unfold yearLength.
  destruct (isLeap year); lia.
Qed.

Lemma daysSinceEpoch_mono (a b : Z) : a <= b -> daysSinceEpoch a <= daysSinceEpoch b.
Proof.
  intros H. rewrite !daysSinceEpoch_closed. unfold leapsThrough.
  Z.div_mod_to_equations. lia.
Qed.

(** [yearDay] inverts [daysSinceEpoch]. *)
Lemma yearDay_spec (d year yday : Z) :
  0 <= d -> yearDay d = (year, yday) ->
  1 <= year /\ daysSinceEpoch year + yday = d
  /\ 0 <= yday < yearLength (isLeap year).
Proof.
  intros Hd. unfold yearDay, daysPer400Years, daysPer100Years, daysPer4Years.
  cbv zeta. rewrite !Z.shiftr_div_pow2 by lia. change (2 ^ 2) with 4.
  intros [= <- <-]. rewrite daysSinceEpoch_closed.
  unfold yearLength, isLeap, leapsThrough.
  match goal with |- context [Z.eqb (?y mod 4) 0] =>
    destruct (Z.eqb_spec (y mod 4) 0); destruct (Z.eqb_spec (y mod 100) 0);
    destruct (Z.eqb_spec (y mod 400) 0) end;
  cbn [andb orb negb]; Z.div_mod_to_equations; lia.
Qed.

(** [yearDay] of a day written as year and day of the year. *)
Lemma yearDay_daysSinceEpoch (year yday : Z) :
  1 <= year -> 0 <= yday < yearLength (isLeap year) ->
  yearDay (daysSinceEpoch year + yday) = (year, yday).
Proof.
  intros Hy Hyd.
  destruct (yearDay (daysSinceEpoch year + yday)) as [y' yd'] eqn:E.
  assert (Hd : 0 <= daysSinceEpoch year + yday).
  { pose proof (daysSinceEpoch_mono 1 year Hy) as H. change (daysSinceEpoch 1) with 0 in H. lia. }
  destruct (yearDay_spec _ _ _ Hd E) as (Hy' & Heq & Hyd').
  assert (y' = year) as ->.
  { destruct (Z.lt_trichotomy y' year) as [Hlt|[->|Hgt]]; [|reflexivity|].
    - pose proof (daysSinceEpoch_mono (y' + 1) year ltac:(lia)).
      rewrite daysSinceEpoch_succ in *. lia.
    - pose proof (daysSinceEpoch_mono (year + 1) y' ltac:(lia)).
      rewrite daysSinceEpoch_succ in *. lia. }
  f_equal. lia.
Qed.

Lemma in_range (n : nat) (z : Z) : 0 <= z < Z.of_nat n -> In z (range n).
Proof.
  intros H. unfold range. apply in_map_iff. exists (Z.to_nat z). split; [lia|].
  apply in_seq. lia.
Qed.

Lemma monthDay_spec (leap : bool) (yday month day : Z) :
  0 <= yday < yearLength leap -> monthDay leap yday = (month, day) ->
  1 <= month <= 12 /\ 1 <= day <= daysIn leap month /\ ydayOf leap month day = yday.
Proof.
  intros Hr E.
  assert (Hall : forallb (monthDay_ok leap) (range (Z.to_nat (yearLength leap))) = true)
    by (destruct leap; vm_compute; reflexivity).
  rewrite forallb_forall in Hall.
  assert (Hin : In yday (range (Z.to_nat (yearLength leap))))
    by (apply in_range; destruct leap; simpl in *; lia).
  specialize (Hall _ Hin). unfold monthDay_ok in Hall. rewrite E in Hall.
  rewrite !andb_true_iff in Hall. lia.
Qed.

Lemma monthDay_ydayOf (leap : bool) (month day : Z) :
  1 <= month <= 12 -> 1 <= day <= daysIn leap month ->
  0 <= ydayOf leap month day < yearLength leap
  /\ monthDay leap (ydayOf leap month day) = (month, day).
Proof.
  intros Hm Hd.
  assert (Hall : forallb (ydayOf_ok leap) (range 416) = true)
    by (destruct leap; vm_compute; reflexivity).
  rewrite forallb_forall in Hall.
  assert (Hd31 : daysIn leap month <= 31).
  { assert (Hc : month = 1 \/ month = 2 \/ month = 3 \/ month = 4 \/ month = 5 \/ month = 6
            \/ month = 7 \/ month = 8 \/ month = 9 \/ month = 10 \/ month = 11 \/ month = 12)
      by lia.
    destruct leap;
      destruct Hc as [->|[->|[->|[->|[->|[->|[->|[->|[->|[->|[->| ->]]]]]]]]]]];
      vm_compute; discriminate. }
  assert (Hin : In (month * 32 + day) (range 416)) by (apply in_range; lia).
  specialize (Hall _ Hin). unfold ydayOf_ok in Hall.
  replace ((month * 32 + day) / 32) with month in Hall
    by (apply Z.div_unique with (r := day); lia).
  replace ((month * 32 + day) mod 32) with day in Hall
    by (apply Z.mod_unique with (q := month); lia).
  destruct (monthDay leap (ydayOf leap month day)) as [m' d'].
  rewrite orb_true_iff, negb_true_iff, !andb_true_iff, !andb_false_iff in Hall.
  destruct Hall as [Hall|Hall]; [lia|].
  split; [lia|]. f_equal; lia.
Qed.

Lemma nsPerDay_pos : 0 < nsPerDay.
Proof. reflexivity. Qed.

Lemma norm_in_range (hi lo : Z) : 0 <= lo < 12 -> norm hi lo 12 = (hi, lo).
Proof.
  intros H. unfold norm.
  destruct (Z.ltb_spec lo 0); [lia|]. destruct (Z.leb_spec 12 lo); [lia|]. reflexivity.
Qed.

Lemma dateToDays_normal (year month day : Z) :
  1 <= month <= 12 ->
  dateToDays year month day = daysSinceEpoch year + ydayOf (isLeap year) month day.
Proof.
  intros H. unfold dateToDays, ydayOf. rewrite norm_in_range by lia.
  replace (month - 1 + 1) with month by lia. lia.
Qed.

Lemma dateToDays_closed (year month day : Z) :
  1 <= month <= 12 ->
  dateToDays year month day
  = 365 * (year - 1) + leapTerm year month + daysBeforeAt (month - 1) + (day - 1).
Proof.
  intros H. rewrite dateToDays_normal, daysSinceEpoch_closed by exact H.
  unfold ydayOf, leapTerm. pose proof (isLeap_leapsThrough year).
  destruct (isLeap year), (3 <=? month); cbn [andb]; lia.
Qed.

(** The same month and day, eleven years on: 4015 days and the leap days. *)
Lemma eleven_years_in_days (year month day : Z) :
  1 <= month <= 12 ->
  4016 <= dateToDays (year + 10) month day - dateToDays (year - 1) month day <= 4018.
Proof.
  intros H. rewrite !dateToDays_closed by exact H. unfold leapTerm.
  destruct (3 <=? month).
  - pose proof (leaps_in_eleven_years (year - 1)) as L.
    replace (year - 1 + 11) with (year + 10) in L by lia. lia.
  - pose proof (leaps_in_eleven_years (year - 1 - 1)) as L.
    replace (year - 1 - 1 + 11) with (year + 10 - 1) in L by lia. lia.
Qed.

Lemma one_year_back (year month day : Z) :
  1 <= month <= 12 ->
  365 <= dateToDays year month day - dateToDays (year - 1) month day <= 366.
Proof.
  intros H. rewrite !dateToDays_closed by exact H. unfold leapTerm.
  pose proof (isLeap_leapsThrough year). pose proof (isLeap_leapsThrough (year - 1)).
  destruct (3 <=? month), (isLeap year), (isLeap (year - 1)); lia.
Qed.

Lemma ten_years_on (year month day : Z) :
  1 <= month <= 12 ->
  dateToDays year month day <= dateToDays (year + 10) month day.
Proof.
  intros H. pose proof (eleven_years_in_days year month day H).
  pose proof (one_year_back year month day H). lia.
Qed.

(** [t.Date()] names the day [t] falls on. *)
Lemma date_spec (t : Time) (year month day : Z) :
  0 <= t -> date t = (year, month, day) ->
  1 <= year /\ 1 <= month <= 12 /\ 1 <= day <= daysIn (isLeap year) month
  /\ dateToDays year month day = t / nsPerDay.
Proof.
  intros Ht. unfold date.
  destruct (yearDay (t / nsPerDay)) as [y yd] eqn:Ey.
  destruct (monthDay (isLeap y) yd) as [m d] eqn:Em.
  intros [= <- <- <-].
  assert (Hd : 0 <= t / nsPerDay) by (apply Z.div_pos; [lia | reflexivity]).
  destruct (yearDay_spec _ _ _ Hd Ey) as (Hy & Heq & Hyd).
  destruct (monthDay_spec _ _ _ _ Hyd Em) as (Hm & Hdd & Hback).
  repeat split; try lia. rewrite dateToDays_normal by lia. lia.
Qed.

(** A valid date and a time of day are read back from their instant. *)
Lemma date_dateToDays (year month day tod : Z) :
  1 <= year -> 1 <= month <= 12 -> 1 <= day <= daysIn (isLeap year) month ->
  0 <= tod < nsPerDay ->
  date (dateToDays year month day * nsPerDay + tod) = (year, month, day).
Proof.
  intros Hy Hm Hd Htod. unfold date.
  replace ((dateToDays year month day * nsPerDay + tod) / nsPerDay)
    with (dateToDays year month day)
    by (apply Z.div_unique with (r := tod); lia).
  rewrite dateToDays_normal by lia.
  destruct (monthDay_ydayOf (isLeap year) month day Hm Hd) as [Hr Hmd].
  rewrite yearDay_daysSinceEpoch by lia. now rewrite Hmd.
Qed.

(** [AddDate] by whole years keeps month, day and time of day. *)
Lemma AddDate_years (t : Time) (k year month day : Z) :
  date t = (year, month, day) ->
  AddDate t k 0 0 = dateToDays (year + k) month day * nsPerDay + t mod nsPerDay.
Proof.
  intros E. unfold AddDate. rewrite E. now rewrite !Z.add_0_r.
Qed.

Lemma instant_split (t : Time) : t = t / nsPerDay * nsPerDay + t mod nsPerDay.
Proof. pose proof (Z.div_mod t nsPerDay). pose proof nsPerDay_pos. lia. Qed.

(** A year back is not later, ten years on is not earlier. *)
Lemma AddDate_back_le (t : Time) : 0 <= t -> AddDate t (-1) 0 0 <= t.
Proof.
  intros Ht. destruct (date t) as [[y m] d] eqn:E.
  destruct (date_spec _ _ _ _ Ht E) as (_ & Hm & _ & Hday).
  rewrite (AddDate_years _ _ _ _ _ E). rewrite (instant_split t) at 2.
  rewrite <- Hday. pose proof (one_year_back y m d Hm). pose proof nsPerDay_pos.
  replace (y + -1) with (y - 1) by lia. nia.
Qed.

Lemma AddDate_forward_ge (t : Time) : 0 <= t -> t <= AddDate t 10 0 0.
Proof.
  intros Ht. destruct (date t) as [[y m] d] eqn:E.
  destruct (date_spec _ _ _ _ Ht E) as (_ & Hm & _ & Hday).
  rewrite (AddDate_years _ _ _ _ _ E). rewrite (instant_split t) at 1.
  rewrite <- Hday. pose proof (ten_years_on y m d Hm). pose proof nsPerDay_pos. nia.
Qed.

(** From a year back to ten years on: 4017 days, give or take one. *)
Lemma AddDate_span (t : Time) :
  0 <= t ->
  4016 * nsPerDay <= AddDate t 10 0 0 - AddDate t (-1) 0 0 <= 4018 * nsPerDay.
Proof.
  intros Ht. destruct (date t) as [[y m] d] eqn:E.
  destruct (date_spec _ _ _ _ Ht E) as (_ & Hm & _ & _).
  rewrite !(AddDate_years _ _ _ _ _ E).
  pose proof (eleven_years_in_days y m d Hm). pose proof nsPerDay_pos.
  replace (y + -1) with (y - 1) by lia. nia.
Qed.

Lemma daysIn_mono (month : Z) : daysIn false month <= daysIn true month.
Proof. unfold daysIn. cbn [andb]. destruct (month =? 2); lia. Qed.

Lemma daysIn_leap_only_february (month day : Z) :
  1 <= month <= 12 -> day <= daysIn true month -> ~ day <= daysIn false month ->
  month = 2 /\ day = 29.
Proof.
  intros Hm. assert (Hc : month = 1 \/ month = 2 \/ month = 3 \/ month = 4 \/ month = 5
    \/ month = 6 \/ month = 7 \/ month = 8 \/ month = 9 \/ month = 10 \/ month = 11
    \/ month = 12) by lia.
  destruct Hc as [->|[->|[->|[->|[->|[->|[->|[->|[->|[->|[->| ->]]]]]]]]]]];
    cbv [daysIn daysBeforeAt daysBefore nth Z.to_nat Pos.to_nat Pos.iter_op Init.Nat.add
         andb Z.eqb Pos.eqb Z.sub Z.add Z.opp Z.pos_sub Pos.pred_double Z.succ_double
         Z.pred_double Z.double Pos.add Pos.succ Pos.add_carry]; lia.
Qed.

(** Eleven calendar years after [t] less a year is [t] plus ten years. *)
Lemma AddDate_eleven_years (t : Time) :
  365 * nsPerDay <= t ->
  AddDate (AddDate t (-1) 0 0) 11 0 0 = AddDate t 10 0 0.
Proof.
  intros Ht. pose proof nsPerDay_pos as Hns.
  assert (Ht0 : 0 <= t) by lia.
  destruct (date t) as [[y m] d] eqn:E.
  destruct (date_spec _ _ _ _ Ht0 E) as (Hy & Hm & Hd & Hday).
  assert (Htod : 0 <= t mod nsPerDay < nsPerDay) by (apply Z.mod_pos_bound; lia).
  assert (Hy2 : 2 <= y).
  { destruct (Z.eq_dec y 1) as [->|]; [|lia].
    rewrite dateToDays_normal in Hday by lia.
    destruct (monthDay_ydayOf (isLeap 1) m d Hm Hd) as [Hr _].
    change (daysSinceEpoch 1) with 0 in Hday. change (isLeap 1) with false in Hr.
    change (isLeap 1) with false in Hday. simpl yearLength in Hr.
    assert (365 <= t / nsPerDay) by (apply Z.div_le_lower_bound; lia). lia. }
  rewrite (AddDate_years _ (-1) _ _ _ E), (AddDate_years _ 10 _ _ _ E).
  replace (y + -1) with (y - 1) by lia.
  set (tod := t mod nsPerDay) in *.
  assert (Hmod : forall a, (a * nsPerDay + tod) mod nsPerDay = tod).
  { intros a. symmetry. apply Z.mod_unique with (q := a); lia. }
  destruct (Z_le_dec d (daysIn (isLeap (y - 1)) m)) as [Hfit|Hover].
  - rewrite (AddDate_years _ 11 (y - 1) m d).
    + rewrite Hmod. replace (y - 1 + 11) with (y + 10) by lia. reflexivity.
    + apply date_dateToDays; lia.
  - assert (Hleap : isLeap y = true /\ isLeap (y - 1) = false).
    { pose proof (daysIn_mono m).
      destruct (isLeap y), (isLeap (y - 1)); try lia; split; reflexivity. }
    destruct Hleap as [Hly Hlp]. rewrite Hly, Hlp in *.
    destruct (daysIn_leap_only_february m d Hm ltac:(lia) Hover) as [-> ->].
    assert (Hl10 : isLeap (y + 10) = false).
    { unfold isLeap in *. apply andb_true_iff in Hly as [H4 _].
      apply Z.eqb_eq in H4. apply andb_false_iff. left. apply Z.eqb_neq.
      Z.div_mod_to_equations. lia. }
    assert (Hsame : forall year, isLeap year = false ->
              dateToDays year 2 29 = dateToDays year 3 1).
    { intros year Hl. rewrite !dateToDays_normal by lia. rewrite Hl. reflexivity. }
    rewrite (Hsame (y - 1) Hlp), (Hsame (y + 10) Hl10).
    rewrite (AddDate_years _ 11 (y - 1) 3 1).
    + rewrite Hmod. replace (y - 1 + 11) with (y + 10) by lia. reflexivity.
    + apply date_dateToDays; try lia. rewrite Hlp. vm_compute. split; discriminate.
Qed.

End GoTimeFacts.

(** ** Package [cert] *)

Module CertFacts.
Import GoStrings GoNet GoBytes GoTime Cert.
Import GoCalendar GoStringsFacts GoNetFacts GoBytesFacts GoTimeFacts MD5Facts.

Section Package.

Context `{Lib : GoLib}.
Context {C : Type} `{CacheC : Cache C tlsCertificate}.

Local Abbreviation St := (State (C := C)).

Lemma template_run (host : string) (st : St) :
  template host st
  = (templateAt host (time_Now (clock st)) (time_Now (S (clock st))),
     mkSt (cache st) (entropy st) (S (S (clock st))) (calls st)).
Proof. reflexivity. Qed.

(** The three ways through [GeneratePem]. *)
Lemma GeneratePem_run (g : Globals) (host : string) (st : St) :
  GeneratePem g host st =
  match rsa_GenerateKey (entropy st) 2048 with
  | inr err =>
      (inr err,
       mkSt (cache st) (S (entropy st)) (clock st) (calls st ++ [CallGeneratePem host]))
  | inl priv =>
      let tmpl := templateAt host (time_Now (clock st)) (time_Now (S (clock st))) in
      let st' :=
        mkSt (cache st) (S (S (entropy st))) (S (S (clock st)))
          (calls st ++ [CallGeneratePem host; CallCreateCertificate tmpl (Public priv)]) in
      match x509_CreateCertificate (S (entropy st)) tmpl (rootCA g) (Public priv) (rootKey g) with
      | inr err => (inr err, st')
      | inl der => (inl (certPem der, keyPem priv), st')
      end
  end.
Proof.
  unfold GeneratePem, bind, record, readRandom, ret. cbn.
  destruct (rsa_GenerateKey (entropy st) 2048) as [priv|err]; [|reflexivity].
  cbn. rewrite <- app_assoc. cbn.
  destruct (x509_CreateCertificate _ _ _ _ _); reflexivity.
Qed.

Lemma callsOf_app {A} (m : M A) (st : St) (new : list Call) :
  calls (snd (m st)) = (calls st ++ new)%list -> callsOf m st = new.
Proof. unfold callsOf. intros ->. apply drop_app_length. Qed.

(** Run [GenerateTLSConfig] along every path: unfold the method, then split
    on the cache, the lookup, the key generation, the signing and the key
    pair. *)
Ltac paths :=
  unfold callsOf, GenerateTLSConfig, lookupCache, storeCache, bind, getCache,
    putCache, record, ret;
  cbn [cache entropy clock calls fst snd];
  repeat match goal with
    | H : cache ?st = _ |- context [cache ?st] => rewrite H
    | H : cache_Get ?c ?h = _ |- context [cache_Get ?c ?h] => rewrite H
    | |- context [match cache ?st with _ => _ end] =>
        is_var st; destruct (cache st) eqn:?
    | |- context [match cache_Get ?c ?h with _ => _ end] => destruct (cache_Get c h) eqn:?
    | |- context [GeneratePem ?g ?h ?st] => rewrite (GeneratePem_run g h st)
    | |- context [match rsa_GenerateKey ?n ?b with _ => _ end] =>
        destruct (rsa_GenerateKey n b) eqn:?
    | |- context [match x509_CreateCertificate ?n ?t ?c ?p ?k with _ => _ end] =>
        destruct (x509_CreateCertificate n t c p k) eqn:?
    | |- context [match tls_X509KeyPair ?c ?k with _ => _ end] =>
        destruct (tls_X509KeyPair c k) eqn:?
    | _ => progress cbn [cache entropy clock calls fst snd]
    end;
  rewrite <- ?app_assoc; rewrite ?drop_app_length; rewrite ?drop_all.

(** C10. [GenerateTLSConfig] writes the cache only when it has built a fresh
    certificate: when it returns an error the cache is as it was and [Set]
    was not called; on a hit the cached certificate is returned, the cache
    is as it was and [Set] was not called; on a miss that succeeds the one
    write is [Set] of the returned certificate under the bare host. *)
Theorem GenerateTLSConfig_cache_writes (g : Globals) (host : string) (st : St) :
  let bare := stripPort host in
  let r := fst (GenerateTLSConfig g host st) in
  let st' := snd (GenerateTLSConfig g host st) in
  let sets := List.filter isCacheSet (callsOf (GenerateTLSConfig g host) st) in
  match r with
  | inr _ => cache st' = cache st /\ sets = []
  | inl conf =>
      match cache st with
      | Some store =>
          match cache_Get store bare with
          | Some cert =>
              conf = mkConfig [cert] /\ cache st' = cache st /\ sets = []
          | None =>
              exists cert,
                conf = mkConfig [cert]
                /\ cache st' = Some (cache_Set store bare cert)
                /\ sets = [CallCacheSet bare cert]
          end
      | None => cache st' = None /\ sets = []
      end
  end.
Proof.
  cbv zeta. paths; cbn; try (split; reflexivity); try (repeat split; reflexivity).
  all: try (eexists; repeat split; reflexivity).
Qed.

Lemma templateAt_CommonName (host : string) (t1 t2 : Time) :
  CommonName (Subject (templateAt host t1 t2)) = host.
Proof. unfold templateAt. destruct (net_ParseIP host); reflexivity. Qed.

Lemma templateAt_SerialNumber (host : string) (t1 t2 : Time) :
  SerialNumber (templateAt host t1 t2) = serialOf host.
Proof. unfold templateAt. destruct (net_ParseIP host); reflexivity. Qed.

Lemma templateAt_validity (host : string) (t1 t2 : Time) :
  NotBefore (templateAt host t1 t2) = AddDate t1 (-1) 0 0
  /\ NotAfter (templateAt host t1 t2) = AddDate t2 10 0 0.
Proof. unfold templateAt. destruct (net_ParseIP host); split; reflexivity. Qed.

(** C6. The subject alternative names of the template hold one entry: the
    parsed address and no DNS name when the host parses as an IP literal,
    the host as DNS name and no address otherwise. *)
Theorem template_subject_alternative_names (host : string) (st : St) :
  let tmpl := fst (template host st) in
  match net_ParseIP host with
  | Some ip => IPAddresses tmpl = [ip] /\ DNSNames tmpl = []
  | None => DNSNames tmpl = [host] /\ IPAddresses tmpl = []
  end
  /\ (List.length (IPAddresses tmpl) + List.length (DNSNames tmpl) = 1)%nat.
Proof.
  cbv zeta. rewrite template_run. cbn [fst]. unfold templateAt.
  destruct (net_ParseIP host); cbn; repeat split; reflexivity.
Qed.

(** What [stripPort] leaves: the host that [SplitHostPort] splits off, being
    the input without its last colon and what follows, and without the
    brackets if it had them; the input itself when there is nothing to
    split. *)
Lemma stripPort_spec (host : string) :
  match SplitHostPort host with
  | inl (h, p) =>
      stripPort host = h
      /\ ((host = (h ++ ":" ++ p)%string /\ IndexByteString h ":" = -1)
          \/ host = ("[" ++ h ++ "]:" ++ p)%string)
  | inr _ => stripPort host = host
  end.
Proof.
  unfold stripPort. destruct (SplitHostPort host) as [[h p]|e] eqn:E; [|reflexivity].
  split; [reflexivity|]. now apply SplitHostPort_shape.
Qed.

(** C7. Whatever [GenerateTLSConfig] does for a host, it does for the bare
    host: the key of every cache [Get] and [Set], the argument of the forge
    and the subject common name of the template that is signed are the host
    that [SplitHostPort] splits off when the input carries a port, and the
    input unchanged when it does not. *)
Theorem GenerateTLSConfig_bare_host (g : Globals) (host : string) (st : St) :
  Forall (fun c => hostOf c = stripPort host) (callsOf (GenerateTLSConfig g host) st)
  /\ match SplitHostPort host with
     | inl (h, p) =>
         stripPort host = h
         /\ ((host = (h ++ ":" ++ p)%string /\ IndexByteString h ":" = -1)
             \/ host = ("[" ++ h ++ "]:" ++ p)%string)
     | inr _ => stripPort host = host
     end.
Proof.
  split; [|apply stripPort_spec].
  paths; repeat constructor; cbn [hostOf]; apply templateAt_CommonName.
Qed.

(** The record of calls only grows. *)
Lemma GenerateTLSConfig_calls (g : Globals) (host : string) (st : St) :
  calls (snd (GenerateTLSConfig g host st))
  = (calls st ++ callsOf (GenerateTLSConfig g host) st)%list.
Proof.
  assert (H : exists new, calls (snd (GenerateTLSConfig g host st)) = (calls st ++ new)%list).
  { paths; eexists; reflexivity. }
  destruct H as [new H]. now rewrite (callsOf_app _ _ _ H).
Qed.

Lemma forgeCount_app (a b : list Call) :
  forgeCount (a ++ b) = (forgeCount a + forgeCount b)%nat.
Proof. unfold forgeCount. now rewrite List.filter_app, List.length_app. Qed.

(** A hit: the cached certificate is returned after the one lookup. *)
Lemma GenerateTLSConfig_hit (g : Globals) (host : string) (st : St)
    (store : C) (cert : tlsCertificate) :
  cache st = Some store -> cache_Get store (stripPort host) = Some cert ->
  GenerateTLSConfig g host st
  = (inl (mkConfig [cert]),
     mkSt (cache st) (entropy st) (clock st) (calls st ++ [CallCacheGet (stripPort host)])).
Proof.
  intros Hc Hget. unfold GenerateTLSConfig, lookupCache, bind, getCache, record, ret.
  rewrite Hc. cbn. rewrite Hget, ?Hc. reflexivity.
Qed.

(** A miss that succeeds: one pass through the forge, and the returned
    certificate is stored under the bare host. *)
Lemma GenerateTLSConfig_miss (g : Globals) (host : string) (st : St)
    (store : C) (conf : tlsConfig tlsCertificate) :
  cache st = Some store -> cache_Get store (stripPort host) = None ->
  fst (GenerateTLSConfig g host st) = inl conf ->
  exists cert,
    conf = mkConfig [cert]
    /\ cache (snd (GenerateTLSConfig g host st)) = Some (cache_Set store (stripPort host) cert)
    /\ forgeCount (callsOf (GenerateTLSConfig g host) st) = 1%nat.
Proof.
  intros Hc Hget. paths; cbn [fst]; try discriminate.
  intros [= <-]. eexists. repeat split.
Qed.

(** C1. With a cache that honours read-your-write, a first call that misses
    and succeeds followed by a second call for the same host: the forge runs
    once, in the first call; the second call returns the configuration of
    the first, reads no randomness and leaves the cache as it is. *)
Theorem GenerateTLSConfig_twice_forges_once `{!CacheReadYourWrite C tlsCertificate}
    (g : Globals) (host : string) (st : St) (store : C)
    (conf1 : tlsConfig tlsCertificate) :
  cache st = Some store ->
  cache_Get store (stripPort host) = None ->
  fst (GenerateTLSConfig g host st) = inl conf1 ->
  let st1 := snd (GenerateTLSConfig g host st) in
  let st2 := snd (GenerateTLSConfig g host st1) in
  fst (GenerateTLSConfig g host st1) = inl conf1
  /\ forgeCount (callsOf (GenerateTLSConfig g host) st) = 1%nat
  /\ forgeCount (callsOf (GenerateTLSConfig g host) st1) = 0%nat
  /\ forgeCount (drop (List.length (calls st)) (calls st2)) = 1%nat
  /\ entropy st2 = entropy st1
  /\ cache st2 = cache st1.
Proof.
  intros Hc Hmiss Hok. cbv zeta.
  destruct (GenerateTLSConfig_miss g host st store conf1 Hc Hmiss Hok)
    as (cert & -> & Hcache & Hforge).
  pose proof (GenerateTLSConfig_hit g host _ _ cert Hcache (get_after_set _ _ _)) as Hhit.
  rewrite Hhit. cbn [fst snd cache entropy].
  repeat split; try assumption.
  - unfold callsOf. rewrite Hhit. cbn [snd calls]. now rewrite drop_app_length.
  - cbn [calls]. rewrite GenerateTLSConfig_calls, <- app_assoc, drop_app_length.
    rewrite forgeCount_app, Hforge. reflexivity.
Qed.

(** The serial number is the digest read as a big-endian number: the
    hexadecimal text always parses. *)
Lemma serialOf_digest (host : string) :
  SetString (EncodeToString (MD5.Sum (bytes_of_string host))) 16 = Some (serialOf host)
  /\ serialOf host = be_value (MD5.Sum (bytes_of_string host))
  /\ 0 <= serialOf host < 2 ^ 128.
Proof.
  unfold serialOf.
  rewrite (SetString_EncodeToString _ (Sum_nonempty (bytes_of_string host))).
  repeat split; try reflexivity;
    pose proof (be_value_bounds (MD5.Sum (bytes_of_string host))) as H;
    rewrite Sum_length in H; change (256 ^ Z.of_nat 16) with (2 ^ 128) in H; lia.
Qed.

(** What [GeneratePem] records: its own entry and, once a key is drawn, the
    signing of the template built from the next two clock readings. *)
Lemma GeneratePem_calls (g : Globals) (host : string) (st : St) :
  callsOf (GeneratePem g host) st =
  match rsa_GenerateKey (entropy st) 2048 with
  | inr _ => [CallGeneratePem host]
  | inl priv =>
      [CallGeneratePem host;
       CallCreateCertificate (fst (template host st)) (Public priv)]
  end.
Proof.
  unfold callsOf. rewrite GeneratePem_run, template_run. cbn [fst].
  destruct (rsa_GenerateKey (entropy st) 2048); cbv zeta.
  - destruct (x509_CreateCertificate _ _ _ _ _); cbn [snd calls]; apply drop_app_length.
  - cbn [snd calls]. apply drop_app_length.
Qed.

(** The key that a successful [GeneratePem] returns is the one drawn at the
    position the random source had when it was called. *)
Lemma GeneratePem_key (g : Globals) (host : string) (st : St) (c k : list byte) :
  fst (GeneratePem g host st) = inl (c, k) ->
  exists priv, rsa_GenerateKey (entropy st) 2048 = inl priv /\ k = keyPem priv.
Proof.
  rewrite GeneratePem_run.
  destruct (rsa_GenerateKey (entropy st) 2048) as [priv|]; [|discriminate].
  cbv zeta. destruct (x509_CreateCertificate _ _ _ _ _); [|discriminate].
  cbn [fst]. intros [= _ <-]. now exists priv.
Qed.

(** C5. Two calls of [GeneratePem] for one host that both succeed sign
    templates with one and the same serial number, the value of the
    hexadecimal MD5 digest of the host (which always parses, to a number
    below 2^128); the keys they return are the keys drawn from the random
    source by each call, so, with a key encoding that is injective, the key
    material differs whenever the two draws differ. *)
Theorem GeneratePem_serial_and_keys (g : Globals) (host : string) (st st' : St)
    (c1 k1 c2 k2 : list byte) :
  fst (GeneratePem g host st) = inl (c1, k1) ->
  fst (GeneratePem g host st') = inl (c2, k2) ->
  (forall p q : PrivateKey, keyPem p = keyPem q -> p = q) ->
  rsa_GenerateKey (entropy st) 2048 <> rsa_GenerateKey (entropy st') 2048 ->
  exists tmpl1 tmpl2 pub1 pub2,
    callsOf (GeneratePem g host) st
    = [CallGeneratePem host; CallCreateCertificate tmpl1 pub1]
    /\ callsOf (GeneratePem g host) st'
       = [CallGeneratePem host; CallCreateCertificate tmpl2 pub2]
    /\ SetString (EncodeToString (MD5.Sum (bytes_of_string host))) 16
       = Some (SerialNumber tmpl1)
    /\ SerialNumber tmpl1 = be_value (MD5.Sum (bytes_of_string host))
    /\ SerialNumber tmpl2 = SerialNumber tmpl1
    /\ 0 <= SerialNumber tmpl1 < 2 ^ 128
    /\ k1 <> k2.
Proof.
  intros H1 H2 Hinj Hfresh.
  destruct (GeneratePem_key _ _ _ _ _ H1) as (p1 & Hp1 & ->).
  destruct (GeneratePem_key _ _ _ _ _ H2) as (p2 & Hp2 & ->).
  exists (fst (template host st)), (fst (template host st')), (Public p1), (Public p2).
  rewrite !GeneratePem_calls, Hp1, Hp2, !template_run. cbn [fst].
  rewrite !templateAt_SerialNumber.
  destruct (serialOf_digest host) as (Hparse & Hval & Hrange).
  repeat split; try assumption; try lia.
  intros Heq. apply Hinj in Heq. apply Hfresh. now rewrite Hp1, Hp2, Heq.
Qed.


(** C9. Unless both embedded PEM texts decode and parse, [init] panics and
    the process is over before [main] starts, whatever [main] is; when both
    parse, [main] runs with the parsed certificate and key as [rootCA] and
    [rootKey]. *)
Theorem init_aborts_unless_both_parse {A : Type} (rootCAPem rootKeyPem : list byte)
    (main : Globals -> A) :
  match loadRootCA rootCAPem, loadRootKey rootKeyPem with
  | Returns (inl ca), Returns (inl key) =>
      init rootCAPem rootKeyPem = Returns (mkGlobals ca key)
      /\ startProcess rootCAPem rootKeyPem main = Ran (main (mkGlobals ca key))
  | _, _ =>
      exists msg,
        init rootCAPem rootKeyPem = Panics msg
        /\ startProcess rootCAPem rootKeyPem main = Aborted msg
  end.
Proof.
  unfold startProcess, init.
  destruct (loadRootCA rootCAPem) as [[ca|e1]|m1];
    destruct (loadRootKey rootKeyPem) as [[key|e2]|m2];
    try (split; reflexivity); eexists; split; reflexivity.
Qed.

End Package.

Import Cert.Doubles.

(** The in-memory store honours read-your-write. *)
#[export] Instance mapCache_ryw :
  CacheReadYourWrite (gmap string (list byte * list byte)) (list byte * list byte).
Proof. intros m h v. simpl. apply lookup_insert_eq. Qed.

(** The stand-in key encoding is injective. *)
Lemma doubles_keyPem_inj (p q : nat) : keyPem p = keyPem q -> p = q.
Proof.
  unfold keyPem. cbn. intros H.
  apply (f_equal (@List.length byte)) in H. cbn in H.
  rewrite !repeat_length in H. lia.
Qed.

Example stripPort_with_port : stripPort "example.com:8443" = "example.com".
Proof. reflexivity. Qed.

Example stripPort_without_port : stripPort "example.com" = "example.com".
Proof. reflexivity. Qed.

Example stripPort_bracketed : stripPort "[::1]:443" = "::1".
Proof. reflexivity. Qed.

Example stripPort_bare_ipv6 : stripPort "2001:db8::1" = "2001:db8::1".
Proof. reflexivity. Qed.

Example serialOf_example :
  serialOf "example.com" = 0x5ababd603b22780302dd8d83498e5172.
Proof. vm_compute. reflexivity. Qed.

(** The calls of a first [GenerateTLSConfig] on an empty store. *)
Example GenerateTLSConfig_first_call :
  map hostOf (callsOf (GenerateTLSConfig globals "example.com:8443") (fresh (Some ∅)))
  = ["example.com"; "example.com"; "example.com"; "example.com"].
Proof. vm_compute. reflexivity. Qed.

(** A failing signer leaves the store empty. *)
Example GenerateTLSConfig_signer_fails :
  let '(r, st) := GenerateTLSConfig globals "unsignable:443" (fresh (Some ∅)) in
  r = inr (errorString "x509: cannot sign") /\ cache st = Some ∅.
Proof. vm_compute. split; reflexivity. Qed.

(** Without a cache every call forges again. *)
Example GenerateTLSConfig_no_cache :
  let st1 := snd (GenerateTLSConfig globals "example.com" (fresh None)) in
  forgeCount (calls (snd (GenerateTLSConfig globals "example.com" st1))) = 2%nat.
Proof. vm_compute. reflexivity. Qed.

Lemma GenerateTLSConfig_twice_forges_once_witness :
  let st := fresh (Some ∅) in
  let st1 := snd (GenerateTLSConfig globals "example.com:8443" st) in
  let st2 := snd (GenerateTLSConfig globals "example.com:8443" st1) in
  exists conf1,
    fst (GenerateTLSConfig globals "example.com:8443" st) = inl conf1
    /\ fst (GenerateTLSConfig globals "example.com:8443" st1) = inl conf1
    /\ forgeCount (callsOf (GenerateTLSConfig globals "example.com:8443") st) = 1%nat
    /\ forgeCount (callsOf (GenerateTLSConfig globals "example.com:8443") st1) = 0%nat
    /\ forgeCount (drop (List.length (calls st)) (calls st2)) = 1%nat
    /\ entropy st2 = entropy st1
    /\ cache st2 = cache st1.
Proof.
  cbv zeta. eexists. split; [vm_compute; reflexivity|].
  apply (GenerateTLSConfig_twice_forges_once globals "example.com:8443"
           (fresh (Some ∅)) ∅);
    [reflexivity | reflexivity | vm_compute; reflexivity].
Defined.

Lemma GeneratePem_serial_and_keys_witness :
  let st := fresh None in
  let st' := snd (GeneratePem globals "example.com" st) in
  exists c1 k1 c2 k2 tmpl1 tmpl2 pub1 pub2,
    fst (GeneratePem globals "example.com" st) = inl (c1, k1)
    /\ fst (GeneratePem globals "example.com" st') = inl (c2, k2)
    /\ callsOf (GeneratePem globals "example.com") st
       = [CallGeneratePem "example.com"; CallCreateCertificate tmpl1 pub1]
    /\ callsOf (GeneratePem globals "example.com") st'
       = [CallGeneratePem "example.com"; CallCreateCertificate tmpl2 pub2]
    /\ SetString (EncodeToString (MD5.Sum (bytes_of_string "example.com"))) 16
       = Some (SerialNumber tmpl1)
    /\ SerialNumber tmpl1 = be_value (MD5.Sum (bytes_of_string "example.com"))
    /\ SerialNumber tmpl2 = SerialNumber tmpl1
    /\ 0 <= SerialNumber tmpl1 < 2 ^ 128
    /\ k1 <> k2.
Proof.
  cbv zeta. do 4 eexists.
  assert (H1 : fst (GeneratePem globals "example.com" (fresh None))
               = inl (certPem (byte_of_Z (serialOf "example.com") :: repeat x02 0),
                      keyPem 0%nat))
    by (vm_compute; reflexivity).
  assert (H2 : fst (GeneratePem globals "example.com"
                      (snd (GeneratePem globals "example.com" (fresh None))))
               = inl (certPem (byte_of_Z (serialOf "example.com") :: repeat x02 2),
                      keyPem 2%nat))
    by (vm_compute; reflexivity).
  destruct (GeneratePem_serial_and_keys globals "example.com" (fresh None)
              (snd (GeneratePem globals "example.com" (fresh None)))
              _ _ _ _ H1 H2 doubles_keyPem_inj)
    as (tmpl1 & tmpl2 & pub1 & pub2 & H);
    [vm_compute; discriminate|].
  exists tmpl1, tmpl2, pub1, pub2. split; [exact H1|]. split; [exact H2|]. exact H.
Defined.


(** On the leap day of the stand-in clock the window runs from March 1, 2023
    to March 1, 2034: 4018 days. *)
Example validity_on_leap_day :
  let tmpl := fst (template "example.com" (fresh None)) in
  date (NotBefore tmpl) = (2023, 3, 1)
  /\ date (NotAfter tmpl) = (2034, 3, 1)
  /\ NotAfter tmpl - NotBefore tmpl = 4018 * nsPerDay.
Proof. vm_compute. repeat split; reflexivity. Qed.

(** A clock reading in 2097: the window holds one leap day only. *)
Example validity_across_2100 :
  (AddDate (midnight 2097 6 1) 10 0 0 - AddDate (midnight 2097 6 1) (-1) 0 0)
  = 4016 * nsPerDay.
Proof. vm_compute. reflexivity. Qed.

Example init_with_malformed_certificate :
  startProcess (A := nat) [x2d; x00] [x2d; x30] (fun _ => 0%nat)
  = Aborted "Load root ca failed: x509: malformed certificate".
Proof. reflexivity. Qed.

Example init_with_malformed_key :
  startProcess (A := nat) [x2d; x30] [x2d; x00] (fun _ => 0%nat)
  = Aborted "Load root key failed: x509: failed to parse private key".
Proof. reflexivity. Qed.

Example init_without_pem_block :
  startProcess (A := nat) [x00] [x2d; x30] (fun _ => 0%nat) = Aborted nilDereference.
Proof. reflexivity. Qed.

Example init_with_both :
  startProcess [x2d; x30] [x2d; x30; x00] (fun g => rootKey g)
  = Ran 2%nat.
Proof. reflexivity. Qed.

End CertFacts.

(** ** Package [proxychannel] *)

Module ProxychannelFacts.
Import Proxychannel.

(** Split a successful step into the cases of the statement executed. *)
Ltac cases H :=
  cbn in H;
  repeat match type of H with
    | None = Some _ => discriminate H
    | Some _ = Some _ => injection H as H
    | context [match ?x with _ => _ end] => is_var x; destruct x; cbn in H
    | context [if ?x then _ else _] => is_var x; destruct x; cbn in H
    | context [if ?x =? ?y then _ else _] => destruct (Z.eqb_spec x y); cbn in H
    end.

Ltac unfold_observations :=
  unfold blockingReturned, runServerReturned, serving, shutdownCalled, wellFormed,
    pastAwaitServerDone, blockingClosed, cleanupInvoked in *.

Ltac unfold_steps H :=
  unfold step, stepMain, stepExtensionManager, stepServer, stepEscalation, deliver,
    cancelContext, listenFails, shutdownReturns, blockingStep, blockingFail,
    receive, notify, closeServerDone, setStatus, setMainPc, setExtPc, setServerPc,
    setEscalationPc, setSetupStarted, setExtSignalChan, setServerSignalChan,
    setWaitGroup, setServerDone, setListener, setInShutdown, setParentCancelled,
    setCtxCancelled, logged in H;
  cbn in H.

Lemma Inv_initial (e : Entry) : Inv (initial e).
Proof.
  constructor; cbn; try discriminate; destruct e; reflexivity || discriminate.
Qed.

Ltac settle :=
  constructor; unfold_observations; cbn in *;
  try reflexivity; try discriminate; try congruence; try tauto;
  intuition (try discriminate; try congruence);
  repeat match goal with
    | H : context [match ?x with _ => _ end] |- _ =>
        is_var x; destruct x; cbn in *; try discriminate; try congruence; try tauto
    end.

Lemma stepMain_Inv (s s' : State) : Inv s -> stepMain s = Some s' -> Inv s'.
Proof.
  intros [Hwf Hc Hd Hl Hs Hn] H.
  destruct s as [e st mp ep sp xp su ec sc wg sd li sh pc cc lg].
  unfold_observations. cbn in *|-. unfold_steps H.
  destruct e, mp as [| | | | | | | | |b| |]; try destruct b; cases H; subst; settle.
Qed.

Lemma stepExtensionManager_Inv (s s' : State) :
  Inv s -> stepExtensionManager s = Some s' -> Inv s'.
Proof.
  intros [Hwf Hc Hd Hl Hs Hn] H.
  destruct s as [e st mp ep sp xp su ec sc wg sd li sh pc cc lg].
  unfold_observations. cbn in *|-. unfold_steps H.
  destruct ep as [[]|]; cases H; subst; settle.
Qed.

Lemma stepServer_Inv (s s' : State) : Inv s -> stepServer s = Some s' -> Inv s'.
Proof.
  intros [Hwf Hc Hd Hl Hs Hn] H.
  destruct s as [e st mp ep sp xp su ec sc wg sd li sh pc cc lg].
  unfold_observations. cbn in *|-. unfold_steps H.
  destruct e, sp as [[[| | |[]|[]|[]]| |]|]; cases H; subst; settle.
Qed.

Lemma stepEscalation_Inv (s s' : State) : Inv s -> stepEscalation s = Some s' -> Inv s'.
Proof.
  intros [Hwf Hc Hd Hl Hs Hn] H.
  destruct s as [e st mp ep sp xp su ec sc wg sd li sh pc cc lg].
  unfold_observations. cbn in *|-. unfold_steps H.
  destruct e, xp as [[]|]; cases H; subst; settle.
Qed.

Lemma deliver_Inv (sig : Signal) (s : State) : Inv s -> Inv (deliver sig s).
Proof.
  intros [Hwf Hc Hd Hl Hs Hn].
  destruct s as [e st mp ep sp xp su ec sc wg sd li sh pc cc lg].
  unfold_observations. cbn in *|-. unfold deliver, notify. cbn.
  destruct ec as [[]|], sc as [[]|]; settle.
Qed.

Lemma listenFails_Inv (s s' : State) : Inv s -> listenFails s = Some s' -> Inv s'.
Proof.
  intros [Hwf Hc Hd Hl Hs Hn] H.
  destruct s as [e st mp ep sp xp su ec sc wg sd li sh pc cc lg].
  unfold_observations. cbn in *|-. unfold_steps H.
  destruct e, mp as [| | | | | | | | |b| |]; try destruct b; cases H; subst; settle.
Qed.

Lemma shutdownReturns_Inv (msg : string) (s s' : State) :
  Inv s -> shutdownReturns msg s = Some s' -> Inv s'.
Proof.
  intros [Hwf Hc Hd Hl Hs Hn] H.
  destruct s as [e st mp ep sp xp su ec sc wg sd li sh pc cc lg].
  unfold_observations. cbn in *|-. unfold_steps H.
  destruct e, mp as [| | | | | | | | |b| |]; cases H; subst; settle.
Qed.

Lemma cancelContext_Inv (s s' : State) : Inv s -> cancelContext s = Some s' -> Inv s'.
Proof.
  intros [Hwf Hc Hd Hl Hs Hn] H.
  destruct s as [e st mp ep sp xp su ec sc wg sd li sh pc cc lg].
  unfold_observations. cbn in *|-. unfold_steps H.
  destruct e as [|[]]; cases H; subst; settle.
Qed.

(** Every transition keeps the invariant. *)
Lemma step_Inv (l : Label) (s s' : State) : Inv s -> step l s = Some s' -> Inv s'.
Proof.
  intros HI H. unfold step in H. destruct (status s); try discriminate.
  destruct l as [[| | |]|sig| | | |].
  - eapply stepMain_Inv; eauto.
  - eapply stepExtensionManager_Inv; eauto.
  - eapply stepServer_Inv; eauto.
  - eapply stepEscalation_Inv; eauto.
  - injection H as <-. now apply deliver_Inv.
  - eapply cancelContext_Inv; eauto.
  - eapply listenFails_Inv; eauto.
  - eapply shutdownReturns_Inv; eauto.
  - eapply shutdownReturns_Inv; eauto.
Qed.

Lemma run_Inv (ls : list Label) (s s' : State) : Inv s -> run ls s = Some s' -> Inv s'.
Proof.
  revert s. induction ls as [|l ls IH]; intros s HI H; cbn in H.
  - now injection H as <-.
  - destruct (step l s) as [s1|] eqn:E; [|discriminate].
    eapply IH; [|exact H]. eapply step_Inv; eauto.
Qed.

Lemma reachable_Inv (e : Entry) (s : State) : reachable e s -> Inv s.
Proof. intros [ls H]. eapply run_Inv; [apply Inv_initial | exact H]. Qed.

Lemma run_app (ls1 ls2 : list Label) (s : State) :
  run (ls1 ++ ls2) s = match run ls1 s with Some s1 => run ls2 s1 | None => None end.
Proof.
  revert s. induction ls1 as [|l ls1 IH]; intros s; cbn; [reflexivity|].
  destruct (step l s); [apply IH | reflexivity].
Qed.





(** Under [Run] both [runServerBlocking] and [runServer] close [serverDone]:
    the second close panics. *)
Example run_closes_serverDone_twice :
  option_map status (run shutdownToTheEnd (initial ViaRun))
  = Some (Panicked "close of closed channel").
Proof. vm_compute. reflexivity. Qed.

(** *** The context given to [RunContext] *)

Ltac listening_cases H :=
  unfold step, stepMain, stepExtensionManager, stepServer, stepEscalation, deliver,
    cancelContext, listenFails, shutdownReturns, blockingStep, blockingFail,
    receive, notify, closeServerDone, setStatus, setMainPc, setExtPc, setServerPc,
    setEscalationPc, setSetupStarted, setExtSignalChan, setServerSignalChan,
    setWaitGroup, setServerDone, setListener, setInShutdown, setParentCancelled,
    setCtxCancelled, logged in H;
  cases H.

(** No quiet step moves a listening server: only a failure to listen does. *)
Lemma step_Listening (l : Label) (s s' : State) :
  quiet l = true -> Listening s -> step l s = Some s' -> Listening s'.
Proof.
  intros Hq [[p He] Hst Hli Hm Hd Hsh Hsp Hxp] H.
  destruct s as [e st mp ep sp xp su ec sc wg sd li sh pc cc lg].
  cbn in *|-. subst.
  destruct l as [[| | |]|sig| | | |]; try discriminate Hq;
    try (destruct ep as [[]|]); listening_cases H; subst;
    constructor; cbn; eauto.
Qed.

Lemma run_Listening (ls : list Label) (s s' : State) :
  forallb quiet ls = true -> Listening s -> run ls s = Some s' -> Listening s'.
Proof.
  revert s. induction ls as [|l ls IH]; intros s Hq HL H; cbn in H.
  - now injection H as <-.
  - cbn in Hq. apply andb_true_iff in Hq as [Hl Hq].
    destruct (step l s) as [s1|] eqn:E; [|discriminate].
    eapply IH; [exact Hq | | exact H]. eapply step_Listening; eauto.
Qed.

(** A cancelled context stays cancelled. *)
Lemma step_parentCancelled (l : Label) (s s' : State) :
  parentCancelled s = true -> step l s = Some s' -> parentCancelled s' = true.
Proof.
  intros Hp H.
  destruct s as [e st mp ep sp xp su ec sc wg sd li sh pc cc lg]. cbn in Hp. subst.
  destruct l as [[| | |]|sig| | | |]; listening_cases H; subst; reflexivity.
Qed.

Lemma run_parentCancelled (ls : list Label) (s s' : State) :
  parentCancelled s = true -> run ls s = Some s' -> parentCancelled s' = true.
Proof.
  revert s. induction ls as [|l ls IH]; intros s Hp H; cbn in H.
  - now injection H as <-.
  - destruct (step l s) as [s1|] eqn:E; [|discriminate].
    eapply IH; [|exact H]. eapply step_parentCancelled; eauto.
Qed.

Lemma run_entry (ls : list Label) (s s' : State) :
  run ls s = Some s' -> entry s' = entry s.
Proof.
  revert s. induction ls as [|l ls IH]; intros s H; cbn in H.
  - now injection H as <-.
  - destruct (step l s) as [s1|] eqn:E; [|discriminate].
    rewrite (IH _ H). clear IH H.
    destruct s as [e st mp ep sp xp su ec sc wg sd li sh pc cc lg].
    destruct l as [[| | |]|sig| | | |]; listening_cases E; subst; reflexivity.
Qed.

(** A reachable state of [RunContext] with the listener open is listening. *)
Lemma reachable_Listening (provided : bool) (ls : list Label) (s : State) :
  run ls (initial (ViaRunContext provided)) = Some s ->
  status s = Running -> listener s = Accepting -> Listening s.
Proof.
  intros Hrun Hst Hli.
  pose proof (run_entry _ _ _ Hrun) as He. cbn in He.
  destruct (run_Inv _ _ _ (Inv_initial _) Hrun) as [Hwf Hc Hd Hl Hs Hn].
  destruct (Hl Hli) as [Hsh Hserving].
  unfold wellFormed, serving, blockingReturned, runServerReturned in *.
  rewrite He in *.
  destruct (mainPc s) as [| | | | | | | | |[]| |] eqn:Em; try discriminate.
  destruct (serverPc s) eqn:Esp; [discriminate|].
  destruct (escalationPc s) eqn:Exp; [discriminate|].
  constructor; eauto.
  destruct (serverDone s); [|reflexivity].
  destruct (Hd eq_refl); discriminate.
Qed.

(** C3 on the code. Under [RunContext] with a context, cancelling the context
    while the listener accepts changes nothing for the listener: as long as
    no signal arrives and listening does not fail, whatever the goroutines
    do next, the process runs on, the listener still accepts,
    [ListenAndServe] has not returned and [serverDone] is open. *)
Theorem RunContext_cancel_keeps_listener (ls1 ls2 : list Label) (s1 s2 : State) :
  run ls1 (initial (ViaRunContext true)) = Some s1 ->
  status s1 = Running ->
  listener s1 = Accepting ->
  forallb quiet ls2 = true ->
  run (CancelContext :: ls2) s1 = Some s2 ->
  parentCancelled s2 = true
  /\ status s2 = Running
  /\ listener s2 = Accepting
  /\ mainPc s2 = CBlocking BServing
  /\ serverDone s2 = false.
Proof.
  intros Hrun Hst Hli Hq H.
  pose proof (reachable_Listening _ _ _ Hrun Hst Hli) as HL.
  cbn [run] in H. destruct (step CancelContext s1) as [sc|] eqn:Ec; [|discriminate].
  assert (HLc : Listening sc) by exact (step_Listening CancelContext s1 sc eq_refl HL Ec).
  assert (Hpc : parentCancelled sc = true).
  { unfold step in Ec. rewrite Hst in Ec. unfold cancelContext in Ec.
    destruct (entry s1) as [|[]]; try discriminate. now injection Ec as <-. }
  destruct (run_Listening _ _ _ Hq HLc H) as [_ ? ? ? ? _ _ _].
  repeat split; try assumption. eapply run_parentCancelled; eauto.
Qed.

Lemma RunContext_cancel_keeps_listener_witness :
  exists s1 s2,
    run serveUnderRunContext (initial (ViaRunContext true)) = Some s1
    /\ run (CancelContext :: afterCancel) s1 = Some s2
    /\ parentCancelled s2 = true
    /\ status s2 = Running
    /\ listener s2 = Accepting
    /\ mainPc s2 = CBlocking BServing
    /\ serverDone s2 = false.
Proof.
  do 2 eexists. split; [vm_compute; reflexivity|]. split; [vm_compute; reflexivity|].
  eapply (RunContext_cancel_keeps_listener serveUnderRunContext afterCancel);
    vm_compute; reflexivity.
Defined.

(** *** The second signal *)

Lemma RunInv_initial (e : Entry) : RunInv (initial e).
Proof. constructor; destruct e; cbn; congruence. Qed.

Ltac settle_run :=
  constructor; unfold notified, shuttingDown, forcedExitPending, nonEmpty in *;
  cbn in *; try reflexivity; try discriminate; try congruence; try tauto;
  intuition (try discriminate; try congruence);
  repeat match goal with
    | H : context [match ?x with _ => _ end] |- _ =>
        is_var x; destruct x; cbn in *; try discriminate; try congruence; try tauto
    | |- context [match ?x with _ => _ end] =>
        is_var x; destruct x; cbn in *; try discriminate; try congruence; try tauto
    end.

Lemma step_RunInv (l : Label) (s s' : State) :
  wellFormed s = true -> RunInv s -> step l s = Some s' -> RunInv s'.
Proof.
  intros Hwf [Hr Hn He] H.
  destruct s as [e st mp ep sp xp su ec sc wg sd li sh pc cc lg].
  unfold notified, shuttingDown, wellFormed in *. cbn in *|-.
  destruct l as [[| | |]|sig| | | |]; destruct e;
    try (destruct mp as [| | | | | | | | |b| |]; try destruct b);
    try discriminate Hwf;
    listening_cases H; subst; settle_run.
Qed.

Lemma run_RunInv (ls : list Label) (s s' : State) :
  Inv s -> RunInv s -> run ls s = Some s' -> RunInv s'.
Proof.
  revert s. induction ls as [|l ls IH]; intros s HI HR H; cbn in H.
  - now injection H as <-.
  - destruct (step l s) as [s1|] eqn:E; [|discriminate].
    eapply IH; [eapply step_Inv; eauto | | exact H].
    eapply step_RunInv; eauto. apply HI.
Qed.

(** Once pending, the forced exit stays pending for as long as the process
    runs. *)
Lemma step_pending (l : Label) (s s' : State) :
  RunInv s -> forcedExitPending s = true -> step l s = Some s' ->
  status s' = Running -> forcedExitPending s' = true.
Proof.
  intros [Hr Hn He] Hp H Hst.
  destruct s as [e st mp ep sp xp su ec sc wg sd li sh pc cc lg].
  unfold notified, shuttingDown, forcedExitPending, nonEmpty in *. cbn in *|-.
  destruct e; [|discriminate].
  destruct xp as [[]|], mp as [| | | | | | | | |b| |]; try discriminate;
    try (exfalso; apply (He eq_refl); reflexivity);
    destruct sc as [[]|]; try discriminate;
    destruct l as [[| | |]|sig| | | |]; listening_cases H; subst;
    cbn in *; try reflexivity; try discriminate.
Qed.

Lemma run_pending (ls : list Label) (s s' : State) :
  Inv s -> RunInv s -> forcedExitPending s = true -> run ls s = Some s' ->
  status s' = Running -> forcedExitPending s' = true.
Proof.
  revert s. induction ls as [|l ls IH]; intros s HI HR Hp H Hst; cbn in H.
  - now injection H as <-.
  - destruct (step l s) as [s1|] eqn:E; [|discriminate].
    assert (Hs1 : status s1 = Running).
    { destruct ls as [|l' ls']; cbn in H.
      - now injection H as ->.
      - unfold step in H. destruct (status s1); try discriminate. reflexivity. }
    eapply IH;
      [eapply step_Inv; eauto | eapply step_RunInv; eauto; apply HI
      | eapply step_pending; eauto | exact H | exact Hst].
Qed.

(** From a pending forced exit, at most three steps, none of them of the
    extension manager, end the process with status 1 and the message of the
    forced exit as last log entry. *)
Lemma pending_exits (s : State) :
  status s = Running -> forcedExitPending s = true ->
  exists ls s',
    run ls s = Some s'
    /\ status s' = Exited 1
    /\ extPc s' = extPc s
    /\ log s' = (log s ++ [forcedExitMessage])%list
    /\ forallb escalates ls = true
    /\ (List.length ls <= 3)%nat.
Proof.
  intros Hst Hp.
  destruct s as [e st mp ep sp xp su ec sc wg sd li sh pc cc lg].
  unfold forcedExitPending, nonEmpty in Hp. cbn in *|-. subst st.
  destruct e; [|discriminate].
  destruct xp as [[]|].
  - destruct mp; try discriminate; destruct sc as [[]|]; try discriminate;
      exists [Go TEscalation; Go TEscalation]; eexists; cbn;
      repeat split; try reflexivity; lia.
  - exists [Go TEscalation]; eexists; cbn; repeat split; try reflexivity; lia.
  - destruct mp; try discriminate; destruct sc as [[]|]; try discriminate.
    exists [Go TMain; Go TEscalation; Go TEscalation]; eexists; cbn;
      repeat split; try reflexivity; lia.
Qed.

(** A signal that arrives once [runServer] has received the first makes the
    forced exit pending. *)
Lemma deliver_pending (sig : Signal) (s : State) :
  RunInv s -> shuttingDown s = true -> forcedExitPending (deliver sig s) = true.
Proof.
  intros [Hr Hn He] Hsd.
  destruct s as [e st mp ep sp xp su ec sc wg sd li sh pc cc lg].
  unfold notified, shuttingDown, forcedExitPending, nonEmpty, deliver, notify in *.
  cbn in *|-. cbn.
  destruct e; [|discriminate].
  destruct mp; try discriminate; specialize (He eq_refl); specialize (Hr eq_refl);
    destruct xp as [[]|]; try congruence;
    destruct sc as [[]|]; try congruence; destruct ec as [[]|]; reflexivity.
Qed.



(** Under [RunContext] nothing calls [os.Exit]. *)
Lemma step_never_exits (l : Label) (s s' : State) (provided : bool) :
  wellFormed s = true -> entry s = ViaRunContext provided ->
  step l s = Some s' -> forall code, status s' <> Exited code.
Proof.
  intros Hwf He H code.
  destruct s as [e st mp ep sp xp su ec sc wg sd li sh pc cc lg].
  unfold wellFormed in Hwf. cbn in *|-. subst e.
  destruct mp as [| | | | | | | | |b| |]; try discriminate Hwf;
    destruct sp; try discriminate Hwf; destruct xp; try discriminate Hwf;
    destruct l as [[| | |]|sig| | | |]; try destruct b;
    listening_cases H; subst; cbn; discriminate.
Qed.

Lemma run_never_exits (ls : list Label) (s s' : State) (provided : bool) :
  Inv s -> entry s = ViaRunContext provided -> (forall code, status s <> Exited code) ->
  run ls s = Some s' -> forall code, status s' <> Exited code.
Proof.
  revert s. induction ls as [|l ls IH]; intros s HI He Hst H; cbn in H.
  - now injection H as <-.
  - destruct (step l s) as [s1|] eqn:E; [|discriminate].
    eapply IH; [eapply step_Inv; eauto | | | exact H].
    + rewrite <- He. apply (run_entry [l]). cbn. now rewrite E.
    + eapply step_never_exits; eauto. apply HI.
Qed.


End ProxychannelFacts.
